(** * The update package of circleci-cli: version parsing, channel discovery,
      comparison and reporting.

    The Go package [update] is embedded function by function.  Go strings are
    byte sequences and are modelled by [string] (a list of [ascii] bytes);
    [uint64] fields are [N] with the range check written where the code has
    one; [int] results of comparisons are [Z]; [float64] is the IEEE 754
    binary64 format of [SpecFloat], rounding to nearest even.  A Go function returning
    [(T, error)] becomes a [result T]; [CheckForUpdates], which returns its
    pointer and its error side by side, returns a pair of options.  Calls that
    leave the process (looking up and running [brew], decoding its JSON, the
    GitHub release API) go through a [World] of oracles and are recorded in a
    trace of events; the reading of the wall clock is an argument. *)

From Stdlib Require Import String Ascii List ZArith NArith Lia Bool.
From Stdlib Require Import DecimalString DecimalN DecimalPos SpecFloat.
Import ListNotations.
Local Open Scope string_scope.

(** ** Errors *)

Inductive strconvErr : Type := ErrSyntax | ErrRange.

(** The error values the package builds or passes on: [errors.New],
    [fmt.Errorf] (format string and arguments kept apart), [errors.Wrap] of
    github.com/pkg/errors, and [strconv.NumError]. *)
Inductive error : Type :=
| errors_New (msg : string)
| fmt_Errorf (format : string) (args : list fmt_arg)
| errors_Wrap (cause : error) (msg : string)
| strconv_NumError (Func Num : string) (Err : strconvErr)
with fmt_arg : Type :=
| arg_string (s : string)
| arg_error (e : error).

Inductive result (A : Type) : Type :=
| Ok (a : A)
| Err (e : error).
Arguments Ok {A} a.
Arguments Err {A} e.

(** ** Package strings (the functions the code calls, on one-byte separators) *)

Module strings.

Fixpoint Count (s : string) (sep : ascii) : Z :=
  match s with
  | EmptyString => 0
  | String c s' => (if Ascii.eqb c sep then 1 else 0) + Count s' sep
  end.

(** The replacement loop of [Replace]: the first [n] occurrences. *)
Fixpoint replaceN (s : string) (old new : ascii) (n : nat) : string :=
  match s with
  | EmptyString => EmptyString
  | String c s' =>
      match n with
      | O => s
      | S n' =>
          if Ascii.eqb c old then String new (replaceN s' old new n')
          else String c (replaceN s' old new n)
      end
  end.

(** [strings.Replace(s, old, new, n)] for one-byte [old] and [new]: the
    first [n] occurrences are replaced, all of them when [n < 0]. *)
Definition Replace (s : string) (old new : ascii) (n : Z) : string :=
  if Ascii.eqb old new || (n =? 0)%Z then s
  else
    let m := Count s old in
    if (m =? 0)%Z then s
    else
      let n := if (n <? 0)%Z || (m <? n)%Z then m else n in
      replaceN s old new (Z.to_nat n).

(** [strings.IndexRune] / [strings.IndexByte] for an ASCII byte: the index
    of the first occurrence, [-1] when there is none. *)
Fixpoint IndexRune (s : string) (c : ascii) : Z :=
  match s with
  | EmptyString => -1
  | String a s' =>
      if Ascii.eqb a c then 0
      else
        let i := IndexRune s' c in
        if (i =? -1)%Z then -1 else i + 1
  end.

(** [s[:i]] and [s[i:]]. *)
Fixpoint slice_to (s : string) (i : nat) : string :=
  match i, s with
  | S i', String c s' => String c (slice_to s' i')
  | _, _ => EmptyString
  end.

Fixpoint slice_from (s : string) (i : nat) : string :=
  match i, s with
  | S i', String _ s' => slice_from s' i'
  | _, _ => s
  end.

(** [strings.SplitN(s, sep, n)] for [n >= 0]: at most [n] pieces, the last
    one the unsplit remainder. *)
Fixpoint SplitN (s : string) (sep : ascii) (n : nat) : list string :=
  match n with
  | O => []
  | S O => [s]
  | S n' =>
      let m := IndexRune s sep in
      if (m <? 0)%Z then [s]
      else slice_to s (Z.to_nat m) :: SplitN (slice_from s (Z.to_nat m + 1)) sep n'
  end.

(** [strings.Split(s, sep)]: every piece; [Split "" sep] is [[""]]. *)
Fixpoint Split (s : string) (sep : ascii) : list string :=
  match s with
  | EmptyString => [EmptyString]
  | String c s' =>
      if Ascii.eqb c sep then EmptyString :: Split s' sep
      else
        match Split s' sep with
        | h :: t => String c h :: t
        | [] => [String c EmptyString]
        end
  end.

(** [strings.ContainsRune(s, r)] for an ASCII [r]. *)
Fixpoint ContainsRune (s : string) (r : ascii) : bool :=
  match s with
  | EmptyString => false
  | String c s' => Ascii.eqb c r || ContainsRune s' r
  end.

(** [strings.Join(elems, sep)]. *)
Fixpoint Join (elems : list string) (sep : string) : string :=
  match elems with
  | [] => EmptyString
  | [e] => e
  | e :: rest => e ++ sep ++ Join rest sep
  end.

End strings.

(** ** Package strconv *)

Module strconv.

Definition maxUint64 : N := 18446744073709551615.

Definition digit (c : ascii) : option N :=
  let k := N_of_ascii c in
  if ((48 <=? k) && (k <=? 57))%N then Some (k - 48)%N else None.

(** The digit loop of [ParseUint(s, 10, 64)]; [s0] is the whole input, kept
    for the error value.  [n*10] overflows exactly when [n >= cutoff], and
    [n + d] is computed modulo [2^64] as the code does. *)
Fixpoint parseLoop (s0 s : string) (n : N) : result N :=
  match s with
  | EmptyString => Ok n
  | String c s' =>
      match digit c with
      | None => Err (strconv_NumError "ParseUint" s0 ErrSyntax)
      | Some d =>
          let cutoff := (maxUint64 / 10 + 1)%N in
          if (cutoff <=? n)%N then Err (strconv_NumError "ParseUint" s0 ErrRange)
          else
            let n := (n * 10)%N in
            let n1 := ((n + d) mod 2 ^ 64)%N in
            if ((n1 <? n) || (maxUint64 <? n1))%N
            then Err (strconv_NumError "ParseUint" s0 ErrRange)
            else parseLoop s0 s' n1
      end
  end.

(** [strconv.ParseUint(s, 10, 64)]. *)
Definition ParseUint (s : string) : result N :=
  match s with
  | EmptyString => Err (strconv_NumError "ParseUint" s ErrSyntax)
  | _ => parseLoop s s 0
  end.

(** [strconv.FormatUint(n, 10)] / [strconv.AppendUint]. *)
Definition FormatUint (n : N) : string :=
  NilEmpty.string_of_uint (N.to_uint n).

End strconv.

(** ** Package github.com/blang/semver (the parts [update] calls) *)

Module semver.

Definition numbers : string := "0123456789".
Definition alphanum : string :=
  "0123456789abcdefghijklmnopqrstuvwxyzABCDEFGHIJKLMNOPQRSTUVWXYZ-".

(** [PRVersion]: one dot-separated pre-release identifier. *)
Record PRVersion : Type := mkPR {
  VersionStr : string;
  VersionNum : N;
  IsNum : bool
}.

Record Version : Type := mkVersion {
  Major : N;
  Minor : N;
  Patch : N;
  Pre : list PRVersion;
  Build : list string
}.

(** The zero value [semver.Version{}]. *)
Definition zero : Version := mkVersion 0 0 0 [] [].

(** [containsOnly(s, comp)]: no rune of [s] lies outside [comp].  Both
    [comp]s are ASCII, and a byte of a longer or broken UTF-8 sequence
    decodes to a rune outside them, so the test is bytewise. *)
Fixpoint containsOnly (s comp : string) : bool :=
  match s with
  | EmptyString => true
  | String c s' => strings.ContainsRune comp c && containsOnly s' comp
  end.

Definition hasLeadingZeroes (s : string) : bool :=
  match s with
  | String c (String _ _) => Ascii.eqb c "0"
  | _ => false
  end.

Definition NewPRVersion (s : string) : result PRVersion :=
  if (String.length s =? 0)%nat then Err (errors_New "Prerelease is empty")
  else if containsOnly s numbers then
    if hasLeadingZeroes s then
      Err (fmt_Errorf "Numeric PreRelease version must not contain leading zeroes %q"
             [arg_string s])
    else
      match strconv.ParseUint s with
      | Err e => Err e
      | Ok num => Ok (mkPR EmptyString num true)
      end
  else if containsOnly s alphanum then Ok (mkPR s 0 false)
  else Err (fmt_Errorf "Invalid character(s) found in prerelease %q" [arg_string s]).

(** One numeric element of [Parse]; [what] and [What] are its name in the
    two messages (major and Major, and so on). *)
Definition parseNumber (what What s : string) : result N :=
  if negb (containsOnly s numbers) then
    Err (fmt_Errorf ("Invalid character(s) found in " ++ what ++ " number %q")
           [arg_string s])
  else if hasLeadingZeroes s then
    Err (fmt_Errorf (What ++ " number must not contain leading zeroes %q")
           [arg_string s])
  else strconv.ParseUint s.

(** The loop over the pre-release identifiers. *)
Fixpoint parsePre (prerelease : list string) : result (list PRVersion) :=
  match prerelease with
  | [] => Ok []
  | prstr :: rest =>
      match NewPRVersion prstr with
      | Err e => Err e
      | Ok parsedPR =>
          match parsePre rest with
          | Err e => Err e
          | Ok prs => Ok (parsedPR :: prs)
          end
      end
  end.

(** The loop over the build meta data. *)
Fixpoint parseBuild (build : list string) : result (list string) :=
  match build with
  | [] => Ok []
  | str :: rest =>
      if (String.length str =? 0)%nat then Err (errors_New "Build meta data is empty")
      else if negb (containsOnly str alphanum) then
        Err (fmt_Errorf "Invalid character(s) found in build meta data %q"
               [arg_string str])
      else
        match parseBuild rest with
        | Err e => Err e
        | Ok bs => Ok (str :: bs)
        end
  end.

(** [semver.Parse]. *)
Definition Parse (s : string) : result Version :=
  if (String.length s =? 0)%nat then Err (errors_New "Version string empty")
  else
    match strings.SplitN s "." 3 with
    | [p0; p1; p2] =>
        match parseNumber "major" "Major" p0 with
        | Err e => Err e
        | Ok major =>
        match parseNumber "minor" "Minor" p1 with
        | Err e => Err e
        | Ok minor =>
            let patchStr := p2 in
            let buildIndex := strings.IndexRune patchStr "+" in
            let '(build, patchStr) :=
              if negb (buildIndex =? -1)%Z
              then (strings.Split (strings.slice_from patchStr (Z.to_nat (buildIndex + 1))) ".",
                    strings.slice_to patchStr (Z.to_nat buildIndex))
              else ([], patchStr) in
            let preIndex := strings.IndexRune patchStr "-" in
            let '(prerelease, patchStr) :=
              if negb (preIndex =? -1)%Z
              then (strings.Split (strings.slice_from patchStr (Z.to_nat (preIndex + 1))) ".",
                    strings.slice_to patchStr (Z.to_nat preIndex))
              else ([], patchStr) in
            match parseNumber "patch" "Patch" patchStr with
            | Err e => Err e
            | Ok patch =>
            match parsePre prerelease with
            | Err e => Err e
            | Ok pre =>
            match parseBuild build with
            | Err e => Err e
            | Ok bld => Ok (mkVersion major minor patch pre bld)
            end end end
        end end
    | _ => Err (errors_New "No Major.Minor.Patch elements found")
    end.

(** [PRVersion.String]. *)
Definition PRString (v : PRVersion) : string :=
  if IsNum v then strconv.FormatUint (VersionNum v) else VersionStr v.

(** [Version.String]: [major.minor.patch], then [-pre.pre...] and
    [+build.build...] when present. *)
Definition String (v : Version) : string :=
  strconv.FormatUint (Major v) ++ "." ++ strconv.FormatUint (Minor v) ++ "."
    ++ strconv.FormatUint (Patch v)
    ++ (match Pre v with
        | [] => ""
        | _ => "-" ++ strings.Join (map PRString (Pre v)) "."
        end)
    ++ (match Build v with
        | [] => ""
        | _ => "+" ++ strings.Join (Build v) "."
        end).

(** [PRVersion.Compare]: numeric identifiers sort below alphanumeric ones. *)
Definition PRCompare (v o : PRVersion) : Z :=
  if IsNum v && negb (IsNum o) then -1
  else if negb (IsNum v) && IsNum o then 1
  else if IsNum v && IsNum o then
    if (VersionNum v =? VersionNum o)%N then 0
    else if (VersionNum o <? VersionNum v)%N then 1
    else -1
  else
    if String.eqb (VersionStr v) (VersionStr o) then 0
    else match String.compare (VersionStr v) (VersionStr o) with
         | Gt => 1
         | _ => -1
         end.

(** The loop of [Version.Compare] over the two pre-release lists, with the
    test on the lengths that follows it. *)
Fixpoint comparePre (vp op : list PRVersion) : Z :=
  match vp, op with
  | [], [] => 0
  | [], _ :: _ => -1
  | _ :: _, [] => 1
  | a :: vp', b :: op' =>
      let comp := PRCompare a b in
      if (comp =? 0)%Z then comparePre vp' op'
      else if (comp =? 1)%Z then 1
      else -1
  end.

Definition cmpN (a b : N) : Z := if (b <? a)%N then 1 else -1.

(** [Version.Compare]: build meta data takes no part. *)
Definition Compare (v o : Version) : Z :=
  if negb (Major v =? Major o)%N then cmpN (Major v) (Major o)
  else if negb (Minor v =? Minor o)%N then cmpN (Minor v) (Minor o)
  else if negb (Patch v =? Patch o)%N then cmpN (Patch v) (Patch o)
  else
    match Pre v, Pre o with
    | [], [] => 0
    | [], _ :: _ => 1
    | _ :: _, [] => -1
    | _, _ => comparePre (Pre v) (Pre o)
    end.

(** [Version.Equals]. *)
Definition Equals (v o : Version) : bool := (Compare v o =? 0)%Z.

End semver.

(** ** float64 and package time *)

Module float64.

(** IEEE 754 binary64: 53 bits of precision, exponents below 1024. *)
Definition prec : Z := 53.
Definition emax : Z := 1024.

Definition t : Type := spec_float.

(** [float64(n)] for an integer [n]: the nearest float. *)
Definition of_int (z : Z) : t := binary_normalize prec emax z 0 false.

Definition add (x y : t) : t := SFadd prec emax x y.
Definition div (x y : t) : t := SFdiv prec emax x y.

(** [x >= y]. *)
Definition geb (x y : t) : bool := SFleb y x.

End float64.

Module time.

(** [time.Time], as nanoseconds since the Unix epoch, and [time.Duration],
    an [int64] count of nanoseconds. *)
Definition Time : Type := Z.
Definition Duration : Type := Z.

Definition minDuration : Duration := (- 2 ^ 63)%Z.
Definition maxDuration : Duration := (2 ^ 63 - 1)%Z.

(** [time.Hour], which is [60 * Minute]. *)
Definition Hour : Duration := 3600000000000%Z.

(** [t.Sub(u)]: the difference, or the nearest of [minDuration] and
    [maxDuration] when it does not fit. *)
Definition Sub (t u : Time) : Duration :=
  let d := (t - u)%Z in
  if (d <? minDuration)%Z then minDuration
  else if (maxDuration <? d)%Z then maxDuration
  else d.

(** [time.Since(t)], with the reading [now] of the clock. *)
Definition Since (now t : Time) : Duration := Sub now t.

(** [d.Hours()]; the divisor [60*60*1e9] is the float of [Hour]'s value.
    [/] and [%] on [int64] truncate towards zero. *)
Definition Hours (d : Duration) : float64.t :=
  let hour := Z.quot d Hour in
  let nsec := Z.rem d Hour in
  float64.add (float64.of_int hour) (float64.div (float64.of_int nsec) (float64.of_int Hour)).

End time.

Module settings.

(** Modelled from the spec: the struct [settings.UpdateCheck] is declared in
    the settings package, which is not among the sources; the spec's
    LastCheckState is a single timestamp, [lastUpdateCheck]. *)
Record UpdateCheck : Type := mkUpdateCheck { LastUpdateCheck : time.Time }.

End settings.

(** ** Package update *)

Module update.

(** [selfupdate.Release]: the two fields this package reads or writes.
    [PublishedAt] is a pointer to a [time.Time]. *)
Record Release : Type := mkRelease {
  Version : semver.Version;
  PublishedAt : option time.Time
}.

(** [selfupdate.Updater]: a handle on the release API, opaque here. *)
Record Updater : Type := mkUpdater { EnterpriseBaseURL : string }.

(** One element of [HomebrewOutdated.Formulae]. *)
Record Formula : Type := mkFormula {
  Name : string;
  InstalledVersions : list string;
  CurrentVersion : string;
  Pinned : bool;
  PinnedVersion : string
}.

Record HomebrewOutdated : Type := mkOutdated { Formulae : list Formula }.

Record Options : Type := mkOptions {
  Current : semver.Version;
  Found : bool;
  Latest : option Release;
  PackageManager : string;
  updater : option Updater;
  githubAPI : string;
  slug : string
}.

Definition set_Current (o : Options) (v : semver.Version) : Options :=
  mkOptions v (Found o) (Latest o) (PackageManager o) (updater o) (githubAPI o) (slug o).
Definition set_Found (o : Options) (b : bool) : Options :=
  mkOptions (Current o) b (Latest o) (PackageManager o) (updater o) (githubAPI o) (slug o).
Definition set_Latest (o : Options) (l : option Release) : Options :=
  mkOptions (Current o) (Found o) l (PackageManager o) (updater o) (githubAPI o) (slug o).
Definition set_updater (o : Options) (u : option Updater) : Options :=
  mkOptions (Current o) (Found o) (Latest o) (PackageManager o) u (githubAPI o) (slug o).

(** *** The collaborators *)

(** What the calls that leave the package answer: [exec.LookPath],
    [Cmd.Output], [json.Unmarshal] into a [HomebrewOutdated],
    [selfupdate.NewUpdater] and [Updater.DetectLatest]. *)
Record World : Type := mkWorld {
  LookPath : string -> result string;
  Output : string -> list string -> result string;
  Unmarshal : string -> result HomebrewOutdated;
  NewUpdater : string -> result Updater;
  DetectLatest : Updater -> string -> option Release * bool * option error
}.

(** The calls a discovery makes, in order. *)
Inductive Event : Type :=
| EvLookPath (file : string)
| EvOutput (name : string) (args : list string)
| EvNewUpdater (api : string)
| EvDetectLatest (slug : string).

(** A computation that questions the world and logs its calls. *)
Definition IO (A : Type) : Type := World -> A * list Event.

Definition ret {A} (a : A) : IO A := fun _ => (a, []).

Definition bind {A B} (m : IO A) (k : A -> IO B) : IO B :=
  fun w => let '(a, t1) := m w in
           let '(b, t2) := k a w in
           (b, (t1 ++ t2)%list).

Notation "x <- m ;; k" := (bind m (fun x => k))
  (at level 61, m at next level, right associativity).

Definition exec_LookPath (file : string) : IO (result string) :=
  fun w => (LookPath w file, [EvLookPath file]).
Definition exec_Output (name : string) (args : list string) : IO (result string) :=
  fun w => (Output w name args, [EvOutput name args]).
Definition json_Unmarshal (data : string) : IO (result HomebrewOutdated) :=
  fun w => (Unmarshal w data, []).
Definition selfupdate_NewUpdater (api : string) : IO (result Updater) :=
  fun w => (NewUpdater w api, [EvNewUpdater api]).
Definition selfupdate_DetectLatest (u : Updater) (slug : string)
  : IO (option Release * bool * option error) :=
  fun w => (DetectLatest w u slug, [EvDetectLatest slug]).

(** *** Scheduling *)

(** [hoursBeforeCheck], the delay between two checks. *)
Definition hoursBeforeCheck : Z := 28.

(** [ShouldCheckForUpdates]; [now] is what the clock reads at the call. *)
Definition ShouldCheckForUpdates (now : time.Time) (upd : settings.UpdateCheck) : bool :=
  let diff := time.Since now (settings.LastUpdateCheck upd) in
  float64.geb (time.Hours diff) (float64.of_int hoursBeforeCheck).

(** *** Version normalisation *)

(** The string [ParseHomebrewVersion] hands to [semver.Parse]. *)
Definition withRevisionAsTag (homebrewVesion : string) : string :=
  strings.Replace homebrewVesion "_" "-" 10.

Definition ParseHomebrewVersion (homebrewVesion : string) : result semver.Version :=
  match semver.Parse (withRevisionAsTag homebrewVesion) with
  | Err err =>
      Err (fmt_Errorf "failed to parse current version from %s: %s"
             [arg_string homebrewVesion; arg_error err])
  | Ok version => Ok version
  end.

(** *** Discovery *)

Definition rateLimitHelp : string :=
"Failed to query the GitHub API for updates.

This is most likely due to GitHub rate-limiting on unauthenticated requests.

To have the circleci-cli make authenticated requests please:

  1. Generate a token at https://github.com/settings/tokens
  2. Set the token by either adding it to your ~/.gitconfig or
     setting the GITHUB_TOKEN environment variable.

Instructions for generating a token can be found at:
https://help.github.com/articles/creating-a-personal-access-token-for-the-command-line/

We call the GitHub releases API to look for new releases.
More information about that API can be found here: https://developer.github.com/v3/repos/releases/

".

(** [latestRelease]: [opts.updater] is the one [checkFromSource] has just
    stored. *)
Definition latestRelease (u : Updater) (opts : Options) : IO (Options * option error) :=
  r <- selfupdate_DetectLatest u (slug opts) ;;
  let '(latest, found, err) := r in
  let opts := set_Found (set_Latest opts latest) found in
  match err with
  | Some e => ret (opts, Some (errors_Wrap e rateLimitHelp))
  | None => ret (opts, None)
  end.

Definition checkFromSource (check : Options) : IO (Options * option error) :=
  r <- selfupdate_NewUpdater (githubAPI check) ;;
  match r with
  | Err err => ret (check, Some err)
  | Ok u =>
      let check := set_updater check (Some u) in
      latestRelease u check
  end.

(** The loop of [checkFromHomebrew] over [outdated.Formulae]: the record is
    updated in place, so what was written before an error stays written. *)
Fixpoint scanFormulae (fs : list Formula) (check : Options) : Options * option error :=
  match fs with
  | [] => (check, None)
  | o :: rest =>
      if String.eqb (Name o) "circleci" then
        let '(check, err) :=
          match InstalledVersions o with
          | v0 :: _ =>
              match ParseHomebrewVersion v0 with
              | Err err => (check, Some err)
              | Ok current => (set_Current check current, None)
              end
          | [] => (check, None)
          end in
        match err with
        | Some err => (check, Some err)
        | None =>
            match ParseHomebrewVersion (CurrentVersion o) with
            | Err err => (check, Some err)
            | Ok latest =>
                let check := set_Latest check (Some (mkRelease latest None)) in
                let check := set_Found check true in
                scanFormulae rest check
            end
        end
      else scanFormulae rest check
  end.

Definition checkFromHomebrew (check : Options) : IO (Options * option error) :=
  r <- exec_LookPath "brew" ;;
  match r with
  | Err err =>
      ret (check, Some (errors_Wrap err
        "Expected to find `brew` in your $PATH but wasn't able to find it"))
  | Ok brew =>
      r <- exec_Output brew ["outdated"; "--json=v2"] ;;
      match r with
      | Err err =>
          ret (check, Some (errors_Wrap err
            "failed to check for updates. `brew outdated --json=v2` returned an error"))
      | Ok out =>
          r <- json_Unmarshal out ;;
          match r with
          | Err err =>
              ret (check, Some (errors_Wrap err
                "failed to parse output of `brew outdated --json=v2`"))
          | Ok outdated => ret (scanFormulae (Formulae outdated) check)
          end
      end
  end.

(** [CheckForUpdates]: [None] in the first component is the nil pointer. *)
Definition CheckForUpdates (githubAPI slug current packageManager : string)
  : IO (option Options * option error) :=
  match semver.Parse current with
  | Err err => ret (None, Some (errors_Wrap err "Failed to parse current version"))
  | Ok currentVersion =>
      let check := mkOptions currentVersion false None packageManager None githubAPI slug in
      r <- (if String.eqb (PackageManager check) "release" then checkFromSource check
            else if String.eqb (PackageManager check) "source" then checkFromSource check
            else if String.eqb (PackageManager check) "homebrew" then checkFromHomebrew check
            else ret (check, None)) ;;
      let '(check, err) := r in
      ret (Some check, err)
  end.

(** *** Comparison and reporting *)

Definition IsLatestVersion (opts : Options) : bool :=
  match String.eqb (semver.String (Current opts)) "", Latest opts with
  | true, _ => true
  | false, None => true
  | false, Some latest => semver.Equals (Version latest) (Current opts)
  end.


(** [%s] of a pointer to [time.Time]: its [String] method, given as
    [fmtTime]; a nil pointer prints as [<nil>]. *)
Definition fmtPublishedAt (fmtTime : time.Time -> string) (p : option time.Time) : string :=
  match p with
  | Some t => fmtTime t
  | None => "<nil>"
  end.

Definition newline : string := String (ascii_of_nat 10) EmptyString.

(** [DebugVersion]: [None] is the panic on the nil [opts.Latest]. *)
Definition DebugVersion (fmtTime : time.Time -> string) (opts : Options) : option string :=
  match Latest opts with
  | None => None
  | Some latest =>
      Some (strings.Join
              [ "Latest version: " ++ semver.String (Version latest);
                "Published: " ++ fmtPublishedAt fmtTime (PublishedAt latest);
                "Current Version: " ++ semver.String (Current opts) ]
              newline)
  end.

(** [ReportVersion]: [None] is the panic on the nil [opts.Latest]. *)
Definition ReportVersion (opts : Options) : option string :=
  match Latest opts with
  | None => None
  | Some latest =>
      Some (strings.Join
              [ "You are running " ++ semver.String (Current opts);
                "A new release is available (" ++ semver.String (Version latest) ++ ")" ]
              newline)
  end.

Definition HowToUpdate (opts : Options) : string :=
  if String.eqb (PackageManager opts) "homebrew" then
    "You can update with `brew upgrade circleci`"
  else if String.eqb (PackageManager opts) "release" then
    "You can update with `circleci update install`"
  else if String.eqb (PackageManager opts) "source" then
    strings.Join
      [ "You can visit the Github releases page for the CLI to manually download and install:";
        "https://github.com/CircleCI-Public/circleci-cli/releases" ]
      newline
  else "".

End update.

(** * Fixtures and definitions used in the statements and proofs *)

Definition opts_example (current latest : semver.Version) : update.Options :=
  update.mkOptions current true (Some (update.mkRelease latest None))
    "release" None "" "circleci/circleci-cli".

(** A world in which [brew] is installed and reports [doc]; the release API
    knows no release. *)
Definition brewWorld (doc : update.HomebrewOutdated) : update.World :=
  update.mkWorld
    (fun file => if String.eqb file "brew" then Ok "/usr/local/bin/brew"
                 else Err (errors_New "executable file not found in $PATH"))
    (fun _ _ => Ok "{}")
    (fun _ => Ok doc)
    (fun api => Ok (update.mkUpdater api))
    (fun _ _ => (None, false, None)).

Definition circleciOutdated : update.HomebrewOutdated :=
  update.mkOutdated [update.mkFormula "circleci" ["0.1.1248"] "0.1.3923" false ""].

Definition otherOutdated : update.HomebrewOutdated :=
  update.mkOutdated [update.mkFormula "git" ["2.30.0"] "2.31.1" false ""].

(** [brew] reports circleci outdated without an installed version. *)
Definition noInstalledOutdated : update.HomebrewOutdated :=
  update.mkOutdated [update.mkFormula "circleci" [] "0.1.3923" false ""].

(** The second half of [binary_round_aux]: rounding to nearest even and the
    shift that absorbs a carry. *)
Definition finish (s : bool) (m1 : Z) (l1 : location) (e1 : Z) : spec_float :=
  let '(mrs2, e2) := shr_fexp float64.prec float64.emax (round_nearest_even m1 l1) e1 loc_Exact in
  match shr_m mrs2 with
  | Z0 => S754_zero s
  | Zpos m => if (e2 <=? float64.emax - float64.prec)%Z then S754_finite s m e2 else S754_infinity s
  | Zneg _ => S754_nan
  end.

(** The scale at which values are compared: [m * 2^(e + scale)] is the value of
    the float [(m, e)] in units of [2^-scale]. *)
Definition scale : Z := 100.

Definition scaled (m : positive) (e : Z) : Z := (Zpos m * 2 ^ (e + scale))%Z.

(** The two constants of the comparison, as floats. *)
Definition f28 : float64.t := float64.of_int update.hoursBeforeCheck.
Definition fHour : float64.t := float64.of_int time.Hour.

(** Floats that are zero or carry the sign bit. *)
Definition nonpos (f : spec_float) : Prop :=
  match f with
  | S754_zero _ => True
  | S754_infinity s | S754_finite s _ _ => s = true
  | S754_nan => False
  end.

(** An entry of the outdated document whose version strings the loop can
    parse: any entry under another name, and an entry named circleci whose
    first installed version (if any) and current version both parse. *)
Definition entryParses (o : update.Formula) : bool :=
  negb (String.eqb (update.Name o) "circleci")
  || ((match update.InstalledVersions o with
       | [] => true
       | i :: _ => match update.ParseHomebrewVersion i with Ok _ => true | Err _ => false end
       end)
      && match update.ParseHomebrewVersion (update.CurrentVersion o) with
         | Ok _ => true
         | Err _ => false
         end).

(** What the homebrew loop keeps: [Found] is set exactly when [Latest] is,
    and a [Latest] it holds has no publication date. *)
Definition homebrewInv (c : update.Options) : Prop :=
  (update.Found c = true <-> update.Latest c <> None)
  /\ (forall r, update.Latest c = Some r -> update.PublishedAt r = None).

(** A world whose release API reports [latest]; [brew] is not installed. *)
Definition releaseWorld (latest : update.Release) : update.World :=
  update.mkWorld
    (fun _ => Err (errors_New "executable file not found in $PATH"))
    (fun _ _ => Err (errors_New "exec: no command"))
    (fun _ => Err (errors_New "unexpected end of JSON input"))
    (fun api => Ok (update.mkUpdater api))
    (fun _ _ => (Some latest, true, None)).

(** [brew] reports two entries named circleci. *)
Definition twiceOutdated : update.HomebrewOutdated :=
  update.mkOutdated
    [update.mkFormula "circleci" ["0.1.1000"] "0.1.2000" false "";
     update.mkFormula "git" ["2.30.0"] "2.31.1" false "";
     update.mkFormula "circleci" ["0.1.1248_1"] "0.1.3923" false ""].

(** * Properties *)

(** ** The semver parser on examples *)

Example parse_plain :
  semver.Parse "0.1.1248" = Ok (semver.mkVersion 0 1 1248 [] []).
Proof. reflexivity. Qed.

Example parse_tagged :
  semver.Parse "1.2.3-4+b.7" =
  Ok (semver.mkVersion 1 2 3 [semver.mkPR "" 4 true] ["b"; "7"]).
Proof. reflexivity. Qed.

Example parse_underscore :
  semver.Parse "1.2.3_4" =
  Err (fmt_Errorf "Invalid character(s) found in patch number %q" [arg_string "3_4"]).
Proof. reflexivity. Qed.

Example string_zero : semver.String semver.zero = "0.0.0".
Proof. reflexivity. Qed.

(** ** Version normalisation *)

Section Replace_facts.

Variables old new : ascii.

Lemma Count_nonneg (s : string) : (0 <= strings.Count s old)%Z.
Proof.
  induction s as [|c s IH]; simpl; [lia|].
  destruct (Ascii.eqb c old); lia.
Qed.

Lemma replaceN_length (s : string) :
  forall n, String.length (strings.replaceN s old new n) = String.length s.
Proof.
  induction s as [|c s IH]; intros n; simpl; [reflexivity|].
  destruct n as [|n]; [reflexivity|].
  destruct (Ascii.eqb c old); simpl; now rewrite IH.
Qed.

(** An occurrence of [old] at [i] is counted in the whole string beyond the
    ones before [i]. *)
Lemma Count_prefix_lt (s : string) :
  forall i, String.get i s = Some old ->
    (strings.Count (strings.slice_to s i) old < strings.Count s old)%Z.
Proof.
  induction s as [|c s IH]; intros i H; simpl in H; [discriminate|].
  destruct i as [|i]; simpl.
  - injection H as ->. rewrite Ascii.eqb_refl.
    pose proof (Count_nonneg s). lia.
  - specialize (IH i H). destruct (Ascii.eqb c old); lia.
Qed.

(** Byte [i] of the output of the loop: an [old] with fewer than [n]
    occurrences before it becomes [new], every other byte stays. *)
Lemma replaceN_get (s : string) :
  forall n i,
    String.get i (strings.replaceN s old new n) =
    match String.get i s with
    | Some c =>
        if Ascii.eqb c old
           && (strings.Count (strings.slice_to s i) old <? Z.of_nat n)%Z
        then Some new else Some c
    | None => None
    end.
Proof.
  induction s as [|c s IH]; intros n i; simpl; [reflexivity|].
  destruct n as [|n].
  - simpl. destruct i as [|i]; simpl.
    + now rewrite andb_false_r.
    + destruct (String.get i s) as [a|]; [|reflexivity].
      replace (_ <? 0)%Z with false; [now rewrite andb_false_r|].
      symmetry. apply Z.ltb_ge.
      pose proof (Count_nonneg (strings.slice_to s i)).
      destruct (Ascii.eqb c old); lia.
  - destruct (Ascii.eqb c old) eqn:Ec.
    + destruct i as [|i]; simpl.
      * rewrite Ec. reflexivity.
      * rewrite IH. destruct (String.get i s) as [a|]; [|reflexivity].
        rewrite Ec.
        change (Z.pos (Pos.of_succ_nat n)) with (Z.of_nat (S n)).
        replace (1 + strings.Count (strings.slice_to s i) old <? Z.of_nat (S n))%Z
          with (strings.Count (strings.slice_to s i) old <? Z.of_nat n)%Z;
          [reflexivity|].
        apply Bool.eq_true_iff_eq. rewrite !Z.ltb_lt. lia.
    + destruct i as [|i]; simpl.
      * rewrite Ec. reflexivity.
      * rewrite IH. destruct (String.get i s) as [a|]; [|reflexivity].
        rewrite Ec. reflexivity.
Qed.

(** The same for [Replace] with a positive bound and [old <> new]. *)
Lemma Replace_get (s : string) (n : Z) (i : nat) :
  old <> new -> (0 < n)%Z ->
  String.get i (strings.Replace s old new n) =
  match String.get i s with
  | Some c =>
      if Ascii.eqb c old && (strings.Count (strings.slice_to s i) old <? n)%Z
      then Some new else Some c
  | None => None
  end.
Proof.
  intros Hne Hn. unfold strings.Replace.
  apply Ascii.eqb_neq in Hne. rewrite Hne.
  replace (n =? 0)%Z with false by (symmetry; apply Z.eqb_neq; lia).
  replace (n <? 0)%Z with false by (symmetry; apply Z.ltb_ge; lia).
  simpl.
  destruct (String.get i s) as [c|] eqn:G.
  - destruct (Ascii.eqb c old) eqn:Ec; simpl.
    + apply Ascii.eqb_eq in Ec. subst c.
      pose proof (Count_prefix_lt s i G) as Hlt.
      pose proof (Count_nonneg (strings.slice_to s i)) as H0.
      replace (strings.Count s old =? 0)%Z with false
        by (symmetry; apply Z.eqb_neq; lia).
      rewrite replaceN_get, G, Ascii.eqb_refl. simpl.
      destruct (strings.Count s old <? n)%Z eqn:Em.
      * apply Z.ltb_lt in Em. rewrite Z2Nat.id by lia.
        replace (_ <? strings.Count s old)%Z with true
          by (symmetry; apply Z.ltb_lt; lia).
        replace (_ <? n)%Z with true by (symmetry; apply Z.ltb_lt; lia).
        reflexivity.
      * rewrite Z2Nat.id by lia. reflexivity.
    + destruct (strings.Count s old =? 0)%Z; [exact G|].
      rewrite replaceN_get, G, Ec. reflexivity.
  - destruct (strings.Count s old =? 0)%Z; [exact G|].
    rewrite replaceN_get, G. reflexivity.
Qed.

Lemma Replace_length (s : string) (n : Z) :
  String.length (strings.Replace s old new n) = String.length s.
Proof.
  unfold strings.Replace.
  destruct (_ || _); [reflexivity|].
  destruct (_ =? 0)%Z; [reflexivity|].
  apply replaceN_length.
Qed.

End Replace_facts.

(** C1, as amended.  [ParseHomebrewVersion] parses the raw string with its
    first ten underscores turned into hyphens: the rewritten string has the
    length of the raw one, an underscore preceded by fewer than ten
    underscores becomes a hyphen, and every other byte (an eleventh or later
    underscore too) is kept.  A parse failure is reported with the raw
    string. *)
Theorem ParseHomebrewVersion_rewrites_first_ten (raw : string) :
  String.length (update.withRevisionAsTag raw) = String.length raw
  /\ (forall i : nat,
        String.get i (update.withRevisionAsTag raw) =
        match String.get i raw with
        | Some c =>
            if Ascii.eqb c "_"
               && (strings.Count (strings.slice_to raw i) "_" <? 10)%Z
            then Some "-"%char else Some c
        | None => None
        end)
  /\ update.ParseHomebrewVersion raw =
     match semver.Parse (update.withRevisionAsTag raw) with
     | Ok version => Ok version
     | Err err =>
         Err (fmt_Errorf "failed to parse current version from %s: %s"
                [arg_string raw; arg_error err])
     end.
Proof.
  split; [apply Replace_length|].
  split.
  - intros i. unfold update.withRevisionAsTag.
    apply Replace_get; [discriminate | lia].
  - unfold update.ParseHomebrewVersion.
    destruct (semver.Parse (update.withRevisionAsTag raw)); reflexivity.
Qed.

(** C1 as written fails: in [1.2.3_4_5] the first underscore is at index 5,
    yet the underscore at index 7 is rewritten as well, and the string parses
    with the pre-release identifier [4-5]. *)
Lemma ParseHomebrewVersion_rewrites_second_underscore :
  strings.IndexRune "1.2.3_4_5" "_" = 5%Z
  /\ ~ (forall i : nat,
          Z.of_nat i <> strings.IndexRune "1.2.3_4_5" "_" ->
          String.get i "1.2.3_4_5" = Some "_"%char ->
          String.get i (update.withRevisionAsTag "1.2.3_4_5") = Some "_"%char)
  /\ update.ParseHomebrewVersion "1.2.3_4_5" =
     Ok (semver.mkVersion 1 2 3 [semver.mkPR "4-5" 0 false] []).
Proof.
  split; [reflexivity|]. split; [|reflexivity].
  intros H. specialize (H 7%nat).
  assert (A : Z.of_nat 7 <> strings.IndexRune "1.2.3_4_5" "_") by (vm_compute; discriminate).
  specialize (H A eq_refl). vm_compute in H. discriminate.
Qed.

(** ** Comparison *)

Lemma append_cons_nonempty (a : string) (c : ascii) (b : string) :
  (a ++ String c b)%string <> EmptyString.
Proof. destruct a; discriminate. Qed.

(** [Version.String] never yields the empty string: it always writes the two
    dots. *)
Lemma String_nonempty (v : semver.Version) : semver.String v <> "".
Proof. unfold semver.String. apply append_cons_nonempty. Qed.

Lemma String_eqb_empty (v : semver.Version) :
  String.eqb (semver.String v) "" = false.
Proof. apply String.eqb_neq, String_nonempty. Qed.

Lemma IsLatestVersion_found (opts : update.Options) (latest : update.Release) :
  update.Latest opts = Some latest ->
  update.IsLatestVersion opts =
  semver.Equals (update.Version latest) (update.Current opts).
Proof.
  intros H. unfold update.IsLatestVersion.
  now rewrite String_eqb_empty, H.
Qed.

(** C2: the unset version [semver.Version{}] prints as [0.0.0], not as the
    empty string, so the guard of [IsLatestVersion] does not see it: with a
    newer latest release the answer is false.  [CheckForUpdates] returns such
    a record for the version string 0.0.0 on the homebrew channel. *)
Theorem IsLatestVersion_unset_current :
  semver.String semver.zero = "0.0.0"
  /\ update.IsLatestVersion
       (update.mkOptions semver.zero true
          (Some (update.mkRelease (semver.mkVersion 0 1 3923 [] []) None))
          "homebrew" None "" "") = false
  /\ fst (update.CheckForUpdates "" "" "0.0.0" "homebrew" (brewWorld noInstalledOutdated)) =
     (Some (update.mkOptions semver.zero true
              (Some (update.mkRelease (semver.mkVersion 0 1 3923 [] []) None))
              "homebrew" None "" ""),
      None).
Proof. repeat split. Qed.

Section Compare_facts.

Import semver.

Lemma PRCompare_antisym (a b : PRVersion) : PRCompare a b = (- PRCompare b a)%Z.
Proof.
  unfold PRCompare.
  destruct (IsNum a), (IsNum b); simpl; try reflexivity.
  - rewrite (N.eqb_sym (VersionNum b)).
    destruct (N.eqb_spec (VersionNum a) (VersionNum b)) as [E|E]; [reflexivity|].
    destruct (N.ltb_spec (VersionNum b) (VersionNum a)),
             (N.ltb_spec (VersionNum a) (VersionNum b)); try reflexivity; lia.
  - rewrite (String.eqb_sym (VersionStr b)).
    destruct (String.eqb_spec (VersionStr a) (VersionStr b)) as [E|E]; [reflexivity|].
    rewrite (String.compare_antisym (VersionStr b) (VersionStr a)).
    destruct (String.compare (VersionStr a) (VersionStr b)) eqn:C;
      simpl; try reflexivity.
    apply String.compare_eq_iff in C. congruence.
Qed.

Lemma comparePre_antisym (vp : list PRVersion) :
  forall op, comparePre vp op = (- comparePre op vp)%Z.
Proof.
  induction vp as [|a vp IH]; intros [|b op]; simpl; try reflexivity.
  rewrite (PRCompare_antisym b a), IH.
  destruct (PRCompare a b =? 0)%Z eqn:E0.
  - apply Z.eqb_eq in E0. rewrite E0. reflexivity.
  - apply Z.eqb_neq in E0.
    replace (- PRCompare a b =? 0)%Z with false by (symmetry; apply Z.eqb_neq; lia).
    destruct (PRCompare a b =? 1)%Z eqn:E1.
    + apply Z.eqb_eq in E1. rewrite E1. reflexivity.
    + destruct (- PRCompare a b =? 1)%Z eqn:E2; [reflexivity|].
      exfalso. apply Z.eqb_neq in E1, E2.
      revert E0 E1 E2. unfold PRCompare.
      repeat match goal with |- context [if ?c then _ else _] => destruct c end;
        try lia.
      destruct (String.compare _ _); lia.
Qed.

Lemma cmpN_antisym (a b : N) : a <> b -> cmpN a b = (- cmpN b a)%Z.
Proof.
  intros H. unfold cmpN.
  destruct (N.ltb_spec b a), (N.ltb_spec a b); try reflexivity; lia.
Qed.

(** [Compare] is antisymmetric: swapping the versions negates the result. *)
Lemma Compare_antisym (v o : Version) : Compare v o = (- Compare o v)%Z.
Proof.
  unfold Compare.
  rewrite (N.eqb_sym (Major o)), (N.eqb_sym (Minor o)), (N.eqb_sym (Patch o)).
  destruct (N.eqb_spec (Major v) (Major o)); simpl; [|now apply cmpN_antisym].
  destruct (N.eqb_spec (Minor v) (Minor o)); simpl; [|now apply cmpN_antisym].
  destruct (N.eqb_spec (Patch v) (Patch o)); simpl; [|now apply cmpN_antisym].
  destruct (Pre v) as [|a vp], (Pre o) as [|b op]; try reflexivity.
  apply comparePre_antisym.
Qed.

Lemma Compare_refl (v : Version) : Compare v v = 0%Z.
Proof. pose proof (Compare_antisym v v). lia. Qed.

End Compare_facts.



(** ** Discovery *)

Section Discovery.

Import update.

Variable w : World.

(** What [checkFromHomebrew] returns, read off the answers of the world. *)
Lemma checkFromHomebrew_result (check : Options) :
  fst (checkFromHomebrew check w) =
  match LookPath w "brew" with
  | Err err =>
      (check, Some (errors_Wrap err
         "Expected to find `brew` in your $PATH but wasn't able to find it"))
  | Ok brew =>
      match Output w brew ["outdated"; "--json=v2"] with
      | Err err =>
          (check, Some (errors_Wrap err
             "failed to check for updates. `brew outdated --json=v2` returned an error"))
      | Ok out =>
          match Unmarshal w out with
          | Err err =>
              (check, Some (errors_Wrap err
                 "failed to parse output of `brew outdated --json=v2`"))
          | Ok outdated => scanFormulae (Formulae outdated) check
          end
      end
  end.
Proof.
  unfold checkFromHomebrew, bind, exec_LookPath, exec_Output, json_Unmarshal, ret.
  destruct (LookPath w "brew") as [brew|e]; [|reflexivity].
  destruct (Output w brew _) as [out|e]; [|reflexivity].
  destruct (Unmarshal w out) as [d|e]; reflexivity.
Qed.

(** What [CheckForUpdates] returns on the homebrew channel. *)
Lemma CheckForUpdates_homebrew (api slug current : string) (v : semver.Version) :
  semver.Parse current = Ok v ->
  fst (CheckForUpdates api slug current "homebrew" w) =
  let r := fst (checkFromHomebrew (mkOptions v false None "homebrew" None api slug) w) in
  (Some (fst r), snd r).
Proof.
  intros P. unfold CheckForUpdates. rewrite P. cbn -[checkFromHomebrew].
  unfold bind, ret.
  destruct (checkFromHomebrew _ w) as [[c e] t]. reflexivity.
Qed.

(** Entries under another name are skipped. *)
Lemma scanFormulae_no_match (fs : list Formula) (check : Options) :
  Forall (fun o => Name o <> "circleci") fs ->
  scanFormulae fs check = (check, None).
Proof.
  induction 1 as [|o fs Ho _ IH]; simpl; [reflexivity|].
  apply String.eqb_neq in Ho. now rewrite Ho.
Qed.



End Discovery.




(** C6.  When [brew] is found and run and its output decodes to one entry
    named circleci with installed versions [0.1.1248] and current version
    0.1.3923, the homebrew discovery returns no error, sets [Found], sets
    [Current] to the parse of 0.1.1248 and [Latest] to a release whose
    version is the parse of 0.1.3923; so does [CheckForUpdates] on that
    channel for any valid caller version. *)
Theorem checkFromHomebrew_one_entry
    (w : update.World) (brew out : string) (pinned : bool) (pinnedVersion : string) :
  update.LookPath w "brew" = Ok brew ->
  update.Output w brew ["outdated"; "--json=v2"] = Ok out ->
  update.Unmarshal w out =
    Ok (update.mkOutdated
          [update.mkFormula "circleci" ["0.1.1248"] "0.1.3923" pinned pinnedVersion]) ->
  (forall check : update.Options,
     exists check',
       fst (update.checkFromHomebrew check w) = (check', None)
       /\ update.Found check' = true
       /\ semver.Parse "0.1.1248" = Ok (update.Current check')
       /\ exists latest,
            update.Latest check' = Some latest
            /\ semver.Parse "0.1.3923" = Ok (update.Version latest))
  /\ (forall api slug current v0,
        semver.Parse current = Ok v0 ->
        fst (update.CheckForUpdates api slug current "homebrew" w) =
        (Some (update.mkOptions (semver.mkVersion 0 1 1248 [] []) true
                 (Some (update.mkRelease (semver.mkVersion 0 1 3923 [] []) None))
                 "homebrew" None api slug),
         None)).
Proof.
  intros Lb Lo Lu. split.
  - intros check. rewrite checkFromHomebrew_result, Lb, Lo, Lu.
    eexists. split; [reflexivity|].
    split; [reflexivity|]. split; [reflexivity|].
    eexists. split; reflexivity.
  - intros api slug current v0 P.
    rewrite (CheckForUpdates_homebrew w api slug current v0 P).
    rewrite checkFromHomebrew_result, Lb, Lo, Lu. reflexivity.
Qed.

Lemma checkFromHomebrew_one_entry_witness :
  fst (update.CheckForUpdates "" "circleci/circleci-cli" "0.1.0" "homebrew"
         (brewWorld circleciOutdated)) =
  (Some (update.mkOptions (semver.mkVersion 0 1 1248 [] []) true
           (Some (update.mkRelease (semver.mkVersion 0 1 3923 [] []) None))
           "homebrew" None "" "circleci/circleci-cli"),
   None).
Proof.
  apply (proj2 (checkFromHomebrew_one_entry (brewWorld circleciOutdated)
                  "/usr/local/bin/brew" "{}" false "" eq_refl eq_refl eq_refl)
           "" "circleci/circleci-cli" "0.1.0" (semver.mkVersion 0 1 0 [] [])).
  reflexivity.
Defined.

(** C7.  When [brew] is found and run and its output decodes to a document
    with no entry named circleci, the homebrew discovery returns no error and
    leaves the record as it was; the record [CheckForUpdates] returns has
    [Found] false, no [Latest], and [Current] as parsed from the caller's
    string. *)
Theorem checkFromHomebrew_no_entry
    (w : update.World) (brew out : string) (doc : update.HomebrewOutdated) :
  update.LookPath w "brew" = Ok brew ->
  update.Output w brew ["outdated"; "--json=v2"] = Ok out ->
  update.Unmarshal w out = Ok doc ->
  Forall (fun o => update.Name o <> "circleci") (update.Formulae doc) ->
  (forall check : update.Options,
     fst (update.checkFromHomebrew check w) = (check, None))
  /\ (forall api slug current v0,
        semver.Parse current = Ok v0 ->
        exists check,
          fst (update.CheckForUpdates api slug current "homebrew" w) = (Some check, None)
          /\ update.Found check = false
          /\ update.Latest check = None
          /\ update.Current check = v0).
Proof.
  intros Lb Lo Lu Hno.
  assert (A : forall check, fst (update.checkFromHomebrew check w) = (check, None)).
  { intros check. rewrite checkFromHomebrew_result, Lb, Lo, Lu.
    now apply scanFormulae_no_match. }
  split; [exact A|].
  intros api slug current v0 P.
  rewrite (CheckForUpdates_homebrew w api slug current v0 P), A.
  eexists. split; [reflexivity|]. repeat split.
Qed.

Lemma checkFromHomebrew_no_entry_witness :
  exists check,
    fst (update.CheckForUpdates "" "circleci/circleci-cli" "0.1.0" "homebrew"
           (brewWorld otherOutdated)) = (Some check, None)
    /\ update.Found check = false
    /\ update.Latest check = None
    /\ update.Current check = semver.mkVersion 0 1 0 [] [].
Proof.
  apply (proj2 (checkFromHomebrew_no_entry (brewWorld otherOutdated)
                  "/usr/local/bin/brew" "{}" otherOutdated eq_refl eq_refl eq_refl
                  ltac:(repeat constructor; discriminate))).
  reflexivity.
Defined.

(** C8.  When the caller's version string does not parse, [CheckForUpdates]
    returns the nil record and the parse error wrapped with its message, and
    calls no collaborator: the trace is empty, whatever the channel. *)
Theorem CheckForUpdates_invalid_current
    (w : update.World) (api slug current pm : string) (err : error) :
  semver.Parse current = Err err ->
  update.CheckForUpdates api slug current pm w =
  ((None, Some (errors_Wrap err "Failed to parse current version")), []).
Proof.
  intros P. unfold update.CheckForUpdates. now rewrite P.
Qed.

Lemma CheckForUpdates_invalid_current_witness :
  update.CheckForUpdates "" "circleci/circleci-cli" "1.2.3_4" "homebrew"
    (brewWorld circleciOutdated) =
  ((None,
    Some (errors_Wrap
            (fmt_Errorf "Invalid character(s) found in patch number %q" [arg_string "3_4"])
            "Failed to parse current version")),
   []).
Proof.
  apply (CheckForUpdates_invalid_current (brewWorld circleciOutdated)
           "" "circleci/circleci-cli" "1.2.3_4" "homebrew").
  reflexivity.
Defined.

(** C9.  On a channel other than release, source and homebrew,
    [CheckForUpdates] with a valid version returns a nil error and the record
    as built: [Found] false, no [Latest]; it calls no collaborator. *)
Theorem CheckForUpdates_unknown_channel
    (w : update.World) (api slug current pm : string) (v0 : semver.Version) :
  pm <> "release" -> pm <> "source" -> pm <> "homebrew" ->
  semver.Parse current = Ok v0 ->
  update.CheckForUpdates api slug current pm w =
  ((Some (update.mkOptions v0 false None pm None api slug), None), []).
Proof.
  intros H1 H2 H3 P. unfold update.CheckForUpdates. rewrite P.
  cbn [update.PackageManager].
  apply String.eqb_neq in H1, H2, H3. rewrite H1, H2, H3. reflexivity.
Qed.

Lemma CheckForUpdates_unknown_channel_witness :
  update.CheckForUpdates "" "circleci/circleci-cli" "0.1.0" "snap"
    (brewWorld circleciOutdated) =
  ((Some (update.mkOptions (semver.mkVersion 0 1 0 [] []) false None "snap" None
            "" "circleci/circleci-cli"), None), []).
Proof.
  apply (CheckForUpdates_unknown_channel (brewWorld circleciOutdated)
           "" "circleci/circleci-cli" "0.1.0" "snap");
    [discriminate | discriminate | discriminate | reflexivity].
Defined.

(** ** Reporting *)

(** C10.  [DebugVersion] and [ReportVersion] fail exactly when [Latest] is
    nil; with a latest release present each returns its lines joined by a
    newline. *)
Theorem DebugVersion_ReportVersion_safe
    (fmtTime : time.Time -> string) (opts : update.Options) :
  (update.Latest opts = None ->
   update.DebugVersion fmtTime opts = None /\ update.ReportVersion opts = None)
  /\ (forall latest,
        update.Latest opts = Some latest ->
        update.DebugVersion fmtTime opts =
          Some (("Latest version: " ++ semver.String (update.Version latest))
                ++ update.newline
                ++ ("Published: "
                    ++ update.fmtPublishedAt fmtTime (update.PublishedAt latest))
                ++ update.newline
                ++ ("Current Version: " ++ semver.String (update.Current opts)))
        /\ update.ReportVersion opts =
             Some (("You are running " ++ semver.String (update.Current opts))
                   ++ update.newline
                   ++ ("A new release is available ("
                       ++ semver.String (update.Version latest) ++ ")"))).
Proof.
  unfold update.DebugVersion, update.ReportVersion. split.
  - intros ->. split; reflexivity.
  - intros latest ->. split; reflexivity.
Qed.

Lemma DebugVersion_ReportVersion_safe_witness :
  let opts := opts_example (semver.mkVersion 0 1 1248 [] []) (semver.mkVersion 0 1 3923 [] []) in
  update.ReportVersion opts =
  Some ("You are running 0.1.1248" ++ update.newline
        ++ "A new release is available (0.1.3923)").
Proof.
  exact (proj2 (proj2 (DebugVersion_ReportVersion_safe (fun _ => "")
                  (opts_example (semver.mkVersion 0 1 1248 [] [])
                     (semver.mkVersion 0 1 3923 [] [])))
                  (update.mkRelease (semver.mkVersion 0 1 3923 [] []) None) eq_refl)).
Defined.

(** ** Scheduling: the float comparison of [ShouldCheckForUpdates] *)

Section Float64_facts.

Import float64 time.
Local Open Scope Z_scope.

Lemma digits2_pos_size (p : positive) : digits2_pos p = Pos.size p.
Proof. induction p; simpl; congruence. Qed.

Lemma size_bounds (p : positive) :
  2 ^ (Zpos (Pos.size p) - 1) <= Zpos p < 2 ^ Zpos (Pos.size p).
Proof.
  pose proof (Pos.size_gt p) as G. pose proof (Pos.size_le p) as L.
  apply Pos2Z.pos_lt_pos in G. apply Pos2Z.pos_le_pos in L.
  rewrite Pos2Z.inj_pow in G, L.
  change (Z.pos p~0) with (2 * Z.pos p) in L.
  replace (Z.pos (Pos.size p)) with (Z.pos (Pos.size p) - 1 + 1) in L at 1 by lia.
  rewrite Z.pow_add_r in L by lia. change (2 ^ 1) with 2 in L.
  split; lia.
Qed.

Lemma size_unique (p : positive) (k : Z) :
  2 ^ (k - 1) <= Zpos p < 2 ^ k -> Zpos (Pos.size p) = k.
Proof.
  intros [L U]. pose proof (size_bounds p) as [L' U'].
  assert (0 < k).
  { destruct (Z.ltb_spec 0 k); [assumption|].
    exfalso. assert (2 ^ k <= 2 ^ 0) by (apply Z.pow_le_mono_r; lia).
    change (2 ^ 0) with 1 in *. lia. }
  destruct (Z.lt_trichotomy (Zpos (Pos.size p)) k) as [C|[C|C]]; [|exact C|]; exfalso.
  - assert (2 ^ Zpos (Pos.size p) <= 2 ^ (k - 1)) by (apply Z.pow_le_mono_r; lia). lia.
  - assert (2 ^ k <= 2 ^ (Zpos (Pos.size p) - 1)) by (apply Z.pow_le_mono_r; lia). lia.
Qed.

Lemma shr_1_m (mrs : shr_record) :
  0 <= shr_m mrs -> shr_m (shr_1 mrs) = shr_m mrs / 2.
Proof.
  destruct mrs as [m r s]. simpl. intros H.
  destruct m as [|p|p]; [reflexivity| |lia].
  destruct p as [p|p|]; simpl.
  - rewrite Pos2Z.inj_xI. apply Z.div_unique with 1; lia.
  - rewrite Pos2Z.inj_xO. apply Z.div_unique with 0; lia.
  - reflexivity.
Qed.

Lemma iter_shr_m (p : positive) :
  forall mrs, 0 <= shr_m mrs ->
    shr_m (iter_pos shr_1 p mrs) = shr_m mrs / 2 ^ Zpos p.
Proof.
  induction p as [p IH|p IH|]; intros mrs H; cbn [iter_pos].
  - assert (H1 : 0 <= shr_m (shr_1 mrs)) by (rewrite shr_1_m by assumption; apply Z.div_pos; lia).
    assert (H2 : 0 <= shr_m (iter_pos shr_1 p (shr_1 mrs))) by (rewrite IH by assumption; apply Z.div_pos; lia).
    rewrite IH, IH, shr_1_m by assumption.
    rewrite !Z.div_div by lia.
    f_equal. rewrite (Pos2Z.inj_xI p).
    replace (2 * Zpos p + 1) with (1 + Zpos p + Zpos p) by lia.
    rewrite !Z.pow_add_r by lia. change (2 ^ 1) with 2. ring.
  - assert (H2 : 0 <= shr_m (iter_pos shr_1 p mrs)) by (rewrite IH by assumption; apply Z.div_pos; lia).
    rewrite IH, IH by assumption.
    rewrite !Z.div_div by lia.
    f_equal. rewrite (Pos2Z.inj_xO p).
    replace (2 * Zpos p) with (Zpos p + Zpos p) by lia.
    rewrite !Z.pow_add_r by lia. ring.
  - apply shr_1_m. assumption.
Qed.

Lemma iter_xO (p : positive) (m : positive) :
  Zpos (Pos.iter xO m p) = Zpos m * 2 ^ Zpos p.
Proof.
  induction p as [|p IH] using Pos.peano_ind.
  - simpl. lia.
  - rewrite Pos.iter_succ, (Pos2Z.inj_xO (Pos.iter xO m p)), IH, Pos2Z.inj_succ, Z.pow_succ_r by lia. lia.
Qed.

Lemma rne_cases (m : Z) (l : location) :
  round_nearest_even m l = m \/ round_nearest_even m l = m + 1.
Proof.
  destruct l as [|[]]; simpl; auto. destruct (Z.even m); auto.
Qed.

Lemma binary_round_aux_finish (s : bool) (mx ex : Z) (lx : location) :
  binary_round_aux prec emax s mx ex lx =
  let '(mrs1, e1) := shr_fexp prec emax mx ex lx in
  finish s (shr_m mrs1) (loc_of_shr_record mrs1) e1.
Proof.
  unfold binary_round_aux, finish.
  destruct (shr_fexp prec emax mx ex lx) as [mrs1 e1]. reflexivity.
Qed.

Lemma fexp_normal (x : Z) : -1021 <= x -> fexp prec emax x = x - 53.
Proof. intros H. unfold fexp, emin, prec, emax. lia. Qed.

Lemma shr_record_of_loc_m (m : Z) (l : location) : shr_m (shr_record_of_loc m l) = m.
Proof. destruct l as [|[]]; reflexivity. Qed.

Lemma loc_of_shr_record_of_loc (m : Z) (l : location) :
  loc_of_shr_record (shr_record_of_loc m l) = l.
Proof. destruct l as [|[]]; reflexivity. Qed.

(** The result of rounding once the mantissa has 53 bits. *)
Lemma finish_spec (s : bool) (m1 : Z) (l1 : location) (e1 : Z) :
  2 ^ 52 <= m1 < 2 ^ 53 -> -1074 <= e1 <= 970 ->
  exists m3 e3,
    finish s m1 l1 e1 = S754_finite s m3 e3
    /\ Zpos (Pos.size m3) = 53
    /\ ((e3 = e1 /\ (Zpos m3 = m1 \/ Zpos m3 = m1 + 1))
        \/ (e3 = e1 + 1 /\ Zpos m3 = 2 ^ 52 /\ m1 + 1 = 2 ^ 53))
    /\ (l1 = loc_Exact -> Zpos m3 = m1 /\ e3 = e1).
Proof.
  intros Hm He. unfold finish.
  assert (Hr : round_nearest_even m1 loc_Exact = m1) by reflexivity.
  destruct (Z.ltb_spec (round_nearest_even m1 l1) (2 ^ 53)) as [Lt|Ge].
  - destruct (round_nearest_even m1 l1) as [|p|p] eqn:R;
      [destruct (rne_cases m1 l1); lia | | destruct (rne_cases m1 l1); lia].
    assert (Sz : Zpos (Pos.size p) = 53).
    { apply size_unique. destruct (rne_cases m1 l1) as [E|E]; rewrite R in E;
        change (53 - 1) with 52; lia. }
    unfold shr_fexp. cbn [Zdigits2]. rewrite digits2_pos_size, Sz.
    rewrite fexp_normal by lia.
    replace (53 + e1 - 53 - e1) with 0 by lia. cbn [shr shr_record_of_loc shr_m].
    replace (e1 <=? emax - prec) with true
      by (symmetry; apply Z.leb_le; unfold emax, prec; lia).
    exists p, e1. split; [reflexivity|]. split; [exact Sz|]. split.
    + left. split; [reflexivity|]. destruct (rne_cases m1 l1) as [E|E]; rewrite R in E; auto.
    + intros ->. rewrite Hr in R. split; [symmetry; exact R | reflexivity].
  - assert (E : round_nearest_even m1 l1 = 2 ^ 53) by (destruct (rne_cases m1 l1); lia).
    rewrite E. unfold shr_fexp.
    change (Zdigits2 (2 ^ 53)) with 54.
    rewrite fexp_normal by lia.
    replace (54 + e1 - 53 - e1) with 1 by lia.
    cbn [shr shr_record_of_loc iter_pos].
    change (shr_m (shr_1 {| shr_m := 2 ^ 53; shr_r := false; shr_s := false |}))
      with (Zpos (2 ^ 52)).
    cbv iota beta.
    replace (e1 + 1 <=? emax - prec) with true
      by (symmetry; apply Z.leb_le; unfold emax, prec; lia).
    exists (2 ^ 52)%positive, (e1 + 1). split; [reflexivity|].
    split; [reflexivity|]. split.
    + right. split; [reflexivity|]. split; [reflexivity|].
      destruct (rne_cases m1 l1); lia.
    + intros ->. rewrite Hr in E. lia.
Qed.

(** Rounding a positive mantissa of at least 53 bits: the mantissa is cut to
    its 53 leading bits and possibly incremented. *)
Lemma binary_round_aux_spec (s : bool) (M : positive) (e : Z) (l : location) :
  53 <= Zpos (Pos.size M) -> -1074 <= e -> e + (Zpos (Pos.size M) - 53) <= 970 ->
  exists m3 e3,
    binary_round_aux prec emax s (Zpos M) e l = S754_finite s m3 e3
    /\ Zpos (Pos.size m3) = 53
    /\ ((e3 = e + (Zpos (Pos.size M) - 53)
         /\ (Zpos m3 = Zpos M / 2 ^ (Zpos (Pos.size M) - 53)
             \/ Zpos m3 = Zpos M / 2 ^ (Zpos (Pos.size M) - 53) + 1))
        \/ (e3 = e + (Zpos (Pos.size M) - 53) + 1 /\ Zpos m3 = 2 ^ 52
            /\ Zpos M / 2 ^ (Zpos (Pos.size M) - 53) + 1 = 2 ^ 53))
    /\ (Zpos (Pos.size M) = 53 -> l = loc_Exact -> Zpos m3 = Zpos M /\ e3 = e).
Proof.
  intros Hd He Hmax.
  pose proof (size_bounds M) as [Lo Hi].
  set (d := Zpos (Pos.size M)) in *.
  rewrite binary_round_aux_finish. unfold shr_fexp.
  cbn [Zdigits2]. rewrite digits2_pos_size. fold d.
  rewrite fexp_normal by lia.
  replace (d + e - 53 - e) with (d - 53) by lia.
  assert (Hpow : 2 ^ d = 2 ^ 53 * 2 ^ (d - 53)).
  { rewrite <- Z.pow_add_r by lia. f_equal. lia. }
  assert (Hpow' : 2 ^ (d - 1) = 2 ^ 52 * 2 ^ (d - 53)).
  { rewrite <- Z.pow_add_r by lia. f_equal. lia. }
  assert (Hn : 0 < 2 ^ (d - 53)) by (apply Z.pow_pos_nonneg; lia).
  assert (Hm1 : 2 ^ 52 <= Zpos M / 2 ^ (d - 53) < 2 ^ 53).
  { split.
    - apply Z.div_le_lower_bound; lia.
    - apply Z.div_lt_upper_bound; lia. }
  destruct (d - 53) as [|n|n] eqn:En; [| |lia].
  - cbn [shr]. rewrite shr_record_of_loc_m, loc_of_shr_record_of_loc.
    change (2 ^ 0) with 1 in *. rewrite Z.div_1_r in *.
    destruct (finish_spec s (Zpos M) l e Hm1 ltac:(lia)) as (m3 & e3 & F & Sz & C & X).
    exists m3, e3. split; [exact F|]. split; [exact Sz|]. split.
    + rewrite Z.add_0_r. exact C.
    + intros _ Hl. exact (X Hl).
  - cbn [shr]. rewrite iter_shr_m by (rewrite shr_record_of_loc_m; lia).
    rewrite shr_record_of_loc_m.
    destruct (finish_spec s (Zpos M / 2 ^ Zpos n)
                (loc_of_shr_record (iter_pos shr_1 n (shr_record_of_loc (Zpos M) l)))
                (e + Zpos n) Hm1 ltac:(lia)) as (m3 & e3 & F & Sz & C & X).
    exists m3, e3. split; [exact F|]. split; [exact Sz|]. split; [exact C|].
    intros Hd53. lia.
Qed.

Lemma shl_align_shift (m : positive) (e e' : Z) :
  e' < e ->
  exists m', shl_align m e e' = (m', e') /\ Zpos m' = Zpos m * 2 ^ (e - e').
Proof.
  intros H. unfold shl_align.
  destruct (e' - e) as [|p|p] eqn:E; try lia.
  exists (Pos.iter xO m p). split; [reflexivity|].
  rewrite iter_xO. f_equal. f_equal. lia.
Qed.

Lemma shl_align_keep (m : positive) (e e' : Z) :
  e <= e' -> shl_align m e e' = (m, e).
Proof.
  intros H. unfold shl_align. destruct (e' - e) eqn:E; try reflexivity; lia.
Qed.

(** A mantissa of at most 53 bits is represented exactly. *)
Lemma binary_round_exact (s : bool) (M : positive) (e : Z) :
  Zpos (Pos.size M) <= 53 ->
  -1074 <= e + (Zpos (Pos.size M) - 53) -> e + (Zpos (Pos.size M) - 53) <= 970 ->
  exists m3,
    binary_round prec emax s M e = S754_finite s m3 (e + (Zpos (Pos.size M) - 53))
    /\ Zpos m3 = Zpos M * 2 ^ (53 - Zpos (Pos.size M))
    /\ Zpos (Pos.size m3) = 53.
Proof.
  intros Hd Hlo Hhi.
  pose proof (size_bounds M) as [Lo Hi].
  set (d := Zpos (Pos.size M)) in *.
  unfold binary_round. rewrite digits2_pos_size. fold d.
  rewrite fexp_normal by lia.
  assert (Sh : exists m', shl_align M e (d + e - 53) = (m', d + e - 53)
                          /\ Zpos m' = Zpos M * 2 ^ (53 - d)).
  { destruct (Z.eq_dec d 53) as [E|E].
    - exists M. split.
      + rewrite shl_align_keep by lia. f_equal. lia.
      + rewrite E. change (2 ^ (53 - 53)) with 1. lia.
    - destruct (shl_align_shift M e (d + e - 53) ltac:(lia)) as (m' & A & B).
      exists m'. split; [exact A|]. rewrite B. f_equal. f_equal. lia. }
  destruct Sh as (m' & A & B). rewrite A.
  assert (Sz : Zpos (Pos.size m') = 53).
  { apply size_unique. rewrite B. change (53 - 1) with 52.
    assert (P1 : 2 ^ 52 = 2 ^ (d - 1) * 2 ^ (53 - d))
      by (rewrite <- Z.pow_add_r by lia; f_equal; lia).
    assert (P2 : 2 ^ 53 = 2 ^ d * 2 ^ (53 - d))
      by (rewrite <- Z.pow_add_r by lia; f_equal; lia).
    assert (0 < 2 ^ (53 - d)) by (apply Z.pow_pos_nonneg; lia).
    rewrite P1, P2. split; [apply Z.mul_le_mono_nonneg_r; lia | apply Z.mul_lt_mono_pos_r; lia]. }
  destruct (binary_round_aux_spec s m' (d + e - 53) loc_Exact) as (m3 & e3 & F & Sz3 & _ & X);
    try lia.
  destruct (X Sz eq_refl) as [Em Ee].
  exists m3. rewrite F, Ee. split; [f_equal; lia|]. split; [lia | exact Sz3].
Qed.

(** Conversion of a positive integer below [2^53] is exact. *)
Lemma of_int_exact (z : Z) :
  0 < z < 2 ^ 53 ->
  exists m e,
    of_int z = S754_finite false m e
    /\ Zpos (Pos.size m) = 53
    /\ -52 <= e <= 0
    /\ Zpos m = z * 2 ^ (- e).
Proof.
  intros [Hz Hlt]. destruct z as [|M|M]; try lia.
  pose proof (size_bounds M) as [Lo Hi].
  assert (Hd : Zpos (Pos.size M) <= 53).
  { destruct (Z.leb_spec (Zpos (Pos.size M)) 53); [assumption|].
    exfalso. assert (2 ^ 53 <= 2 ^ (Zpos (Pos.size M) - 1)) by (apply Z.pow_le_mono_r; lia).
    lia. }
  destruct (binary_round_exact false M 0 Hd ltac:(lia) ltac:(lia)) as (m3 & F & HV & Sz).
  exists m3, (0 + (Zpos (Pos.size M) - 53)).
  split; [exact F|]. split; [exact Sz|]. split; [lia|].
  replace (- (0 + (Zpos (Pos.size M) - 53))) with (53 - Zpos (Pos.size M)) by lia.
  exact HV.
Qed.

(** Rounding in terms of values: the result is the value [x] cut down to a
    multiple of the grid step [G], or the next multiple; [x] has 53 significant
    bits on that grid. *)
Lemma binary_round_aux_scaled (s : bool) (M : positive) (e : Z) (l : location) :
  53 <= Zpos (Pos.size M) -> - scale <= e -> e + (Zpos (Pos.size M) - 53) <= 970 ->
  exists m3 e3 j,
    binary_round_aux prec emax s (Zpos M) e l = S754_finite s m3 e3
    /\ Zpos (Pos.size m3) = 53
    /\ e + (Zpos (Pos.size M) - 53) <= e3 <= e + (Zpos (Pos.size M) - 53) + 1
    /\ 0 <= j
    /\ 2 ^ 52 * 2 ^ j <= scaled M e < 2 ^ 53 * 2 ^ j
    /\ (scaled m3 e3 = scaled M e / 2 ^ j * 2 ^ j \/ scaled m3 e3 = (scaled M e / 2 ^ j + 1) * 2 ^ j).
Proof.
  intros Hd He Hmax. unfold scale in He.
  destruct (binary_round_aux_spec s M e l Hd ltac:(lia) Hmax)
    as (m3 & e3 & F & Sz & C & _).
  pose proof (size_bounds M) as [Lo Hi].
  set (n := Zpos (Pos.size M) - 53) in *.
  exists m3, e3, (e + n + scale). split; [exact F|]. split; [exact Sz|].
  split; [destruct C as [[-> _]|[-> _]]; lia|].
  split; [unfold scale; lia|].
  assert (PG : 2 ^ (e + n + scale) = 2 ^ n * 2 ^ (e + scale)).
  { rewrite <- Z.pow_add_r by (unfold scale; lia). f_equal. lia. }
  assert (P0 : 0 < 2 ^ (e + scale)) by (apply Z.pow_pos_nonneg; unfold scale; lia).
  assert (Pn : 0 < 2 ^ n) by (apply Z.pow_pos_nonneg; lia).
  assert (P1 : 2 ^ (Zpos (Pos.size M) - 1) = 2 ^ 52 * 2 ^ n).
  { rewrite <- Z.pow_add_r by lia. f_equal. lia. }
  assert (P2 : 2 ^ Zpos (Pos.size M) = 2 ^ 53 * 2 ^ n).
  { rewrite <- Z.pow_add_r by lia. f_equal. lia. }
  assert (Q : scaled M e / 2 ^ (e + n + scale) = Zpos M / 2 ^ n).
  { unfold scaled. rewrite PG. apply Z.div_mul_cancel_r; lia. }
  split.
  - unfold scaled. rewrite PG. split.
    + rewrite Z.mul_assoc. apply Z.mul_le_mono_nonneg_r; lia.
    + rewrite Z.mul_assoc. apply Z.mul_lt_mono_pos_r; lia.
  - rewrite Q.
    destruct C as [[-> [E|E]]|[-> [E1 E2]]].
    + left. unfold scaled at 1. rewrite E. reflexivity.
    + right. unfold scaled at 1. rewrite E. reflexivity.
    + right. unfold scaled at 1. rewrite E1, E2.
      replace (e + n + 1 + scale) with (1 + (e + n + scale)) by lia.
      rewrite (Z.pow_add_r 2 1) by (unfold scale; lia).
      change (2 ^ 53) with (2 ^ 52 * 2 ^ 1). ring.
Qed.

(** Consequences used below: the result lies between the value cut down to
    the grid and the value plus one part in [2^52]. *)
Lemma grid_upper (x j v : Z) :
  0 <= j -> 2 ^ 52 * 2 ^ j <= x ->
  (v = x / 2 ^ j * 2 ^ j \/ v = (x / 2 ^ j + 1) * 2 ^ j) ->
  v * 2 ^ 52 <= x * (2 ^ 52 + 1).
Proof.
  intros Hj Hx Hv.
  assert (0 < 2 ^ j) by (apply Z.pow_pos_nonneg; lia).
  pose proof (Z.mul_div_le x (2 ^ j) ltac:(lia)) as D.
  assert (v <= x + 2 ^ j) by (destruct Hv; subst v; lia).
  lia.
Qed.

Lemma grid_lower (x j v t : Z) :
  0 <= j -> 0 < t ->
  (v = x / 2 ^ j * 2 ^ j \/ v = (x / 2 ^ j + 1) * 2 ^ j) ->
  (2 ^ j | t) -> t <= x -> t <= v.
Proof.
  intros Hj Ht Hv [c Hc] Hx.
  assert (P : 0 < 2 ^ j) by (apply Z.pow_pos_nonneg; lia).
  assert (c <= x / 2 ^ j) by (apply Z.div_le_lower_bound; lia).
  destruct Hv; subst v t; nia.
Qed.

Lemma f28_eq : f28 = S754_finite false 7881299347898368 (-48).
Proof. reflexivity. Qed.

Lemma fHour_eq : fHour = S754_finite false 7372800000000000 (-11).
Proof. reflexivity. Qed.

Lemma pow2_pos (a : Z) : 0 <= a -> 0 < 2 ^ a.
Proof. intros. apply Z.pow_pos_nonneg; lia. Qed.

(** Comparison with 28.0 of a positive float with a 53-bit mantissa. *)
Lemma leb28_scaled (m : positive) (e : Z) :
  Zpos (Pos.size m) = 53 -> - scale <= e <= scale ->
  (SFleb f28 (S754_finite false m e) = true <-> 28 * 2 ^ scale <= scaled m e).
Proof.
  intros Sz He. unfold scale in *.
  pose proof (size_bounds m) as [Lo Hi]. rewrite Sz in Lo, Hi.
  change (2 ^ (53 - 1)) with (2 ^ 52) in Lo.
  rewrite f28_eq. unfold SFleb, SFcompare, scaled, scale.
  destruct (Z.compare_spec (-48) e) as [E|E|E].
  - subst e. change (2 ^ (-48 + 100)) with (2 ^ 52).
    change (28 * 2 ^ 100) with (7881299347898368 * 2 ^ 52).
    change (Pos.compare_cont Eq 7881299347898368 m) with (7881299347898368 ?= m)%positive.
    rewrite Pos2Z.inj_compare.
    destruct (Z.compare_spec 7881299347898368 (Zpos m)) as [C|C|C]; split; intros; try lia;
      try reflexivity; discriminate.
  - split; [intros _|reflexivity].
    assert (2 ^ 53 <= 2 ^ (e + 100)) by (apply Z.pow_le_mono_r; lia).
    assert (2 ^ 52 * 2 ^ 53 <= Zpos m * 2 ^ (e + 100)) by (apply Z.mul_le_mono_nonneg; lia).
    change (28 * 2 ^ 100) with (28 * 2 ^ 100 + 0). 
    assert (28 * 2 ^ 100 <= 2 ^ 52 * 2 ^ 53) by (vm_compute; discriminate).
    lia.
  - split; [discriminate|]. intros H. exfalso.
    assert (2 ^ (e + 100) <= 2 ^ 51) by (apply Z.pow_le_mono_r; lia).
    pose proof (pow2_pos (e + 100) ltac:(lia)).
    assert (Zpos m * 2 ^ (e + 100) < 2 ^ 53 * 2 ^ 51) by nia.
    assert (2 ^ 53 * 2 ^ 51 <= 28 * 2 ^ 100) by (vm_compute; discriminate).
    lia.
Qed.

Lemma SFdiv_core_canonical (m1 : positive) (e1 : Z) (m2 : positive) (e2 : Z) :
  Zpos (Pos.size m1) = 53 -> Zpos (Pos.size m2) = 53 -> -1021 <= e1 - e2 ->
  SFdiv_core_binary prec emax (Zpos m1) e1 (Zpos m2) e2 =
  (Zpos m1 * 2 ^ 53 / Zpos m2, e1 - e2 - 53,
   new_location (Zpos m2) ((Zpos m1 * 2 ^ 53) mod Zpos m2)).
Proof.
  intros S1 S2 He. unfold SFdiv_core_binary.
  cbn [Zdigits2]. rewrite (digits2_pos_size m1), (digits2_pos_size m2), S1, S2.
  replace (53 + e1 - (53 + e2)) with (e1 - e2) by lia.
  rewrite fexp_normal by lia.
  rewrite Z.min_l by lia.
  replace (e1 - e2 - (e1 - e2 - 53)) with 53 by lia.
  cbv iota. rewrite Z.shiftl_mul_pow2 by lia.
  unfold Z.div, Z.modulo.
  destruct (Z.div_eucl (Zpos m1 * 2 ^ 53) (Zpos m2)) as [q r]. reflexivity.
Qed.

(** The quotient of a whole number of nanoseconds below an hour by the
    hour: a float of at most [1 - 2^-42]. *)
Lemma div_Hour_spec (nsec : Z) :
  0 < nsec < Hour ->
  exists m3 e3,
    SFdiv prec emax (of_int nsec) fHour = S754_finite false m3 e3
    /\ Zpos (Pos.size m3) = 53
    /\ -94 <= e3 <= -50
    /\ scaled m3 e3 <= (2 ^ 42 - 1) * 2 ^ 58.
Proof.
  intros [Hn Hlt]. unfold Hour in Hlt.
  destruct (of_int_exact nsec ltac:(lia)) as (mn & en & F & Sz & He & Vn).
  pose proof (size_bounds mn) as [Lo Hi]. rewrite Sz in Lo, Hi.
  change (2 ^ (53 - 1)) with (2 ^ 52) in Lo.
  assert (He' : en <= -11).
  { destruct (Z.leb_spec en (-11)); [assumption|]. exfalso.
    assert (2 ^ (- en) <= 2 ^ 10) by (apply Z.pow_le_mono_r; lia).
    pose proof (pow2_pos (- en) ltac:(lia)).
    assert (nsec * 2 ^ (- en) < 2 ^ 42 * 2 ^ 10) by nia.
    change (2 ^ 42 * 2 ^ 10) with (2 ^ 52) in *. lia. }
  assert (HA : 2 ^ 11 <= 2 ^ (- en)) by (apply Z.pow_le_mono_r; lia).
  rewrite F, fHour_eq. unfold SFdiv.
  rewrite SFdiv_core_canonical by (try exact Sz; try reflexivity; lia).
  cbn [xorb].
  set (mH := 7372800000000000%positive) in *.
  set (q := Zpos mn * 2 ^ 53 / Zpos mH).
  assert (Hq : 2 ^ 52 <= q < 2 ^ 54).
  { unfold q. split.
    - apply Z.div_le_lower_bound; [lia|]. unfold mH. lia.
    - apply Z.div_lt_upper_bound; [lia|]. unfold mH. lia. }
  assert (Hqm : q * Zpos mH <= Zpos mn * 2 ^ 53).
  { unfold q. rewrite Z.mul_comm. apply Z.mul_div_le. lia. }
  destruct q as [|qp|qp] eqn:Eq; try lia.
  pose proof (size_bounds qp) as [Lq Hq'].
  assert (Sq : 53 <= Zpos (Pos.size qp) <= 54).
  { split.
    - destruct (Z.leb_spec 53 (Zpos (Pos.size qp))); [assumption|]. exfalso.
      assert (2 ^ Zpos (Pos.size qp) <= 2 ^ 52) by (apply Z.pow_le_mono_r; lia). lia.
    - destruct (Z.leb_spec (Zpos (Pos.size qp)) 54); [assumption|]. exfalso.
      assert (2 ^ 54 <= 2 ^ (Zpos (Pos.size qp) - 1)) by (apply Z.pow_le_mono_r; lia). lia. }
  replace (en - -11 - 53) with (en - 42) by lia.
  destruct (binary_round_aux_scaled false qp (en - 42)
              (new_location (Zpos mH) ((Zpos mn * 2 ^ 53) mod Zpos mH)))
    as (m3 & e3 & j & R & Sz3 & He3 & Hj & Hx & Hv); try (unfold scale; lia).
  exists m3, e3. split; [exact R|]. split; [exact Sz3|]. split; [lia|].
  pose proof (grid_upper _ _ _ Hj (proj1 Hx) Hv) as U.
  (* x = q * 2^(en + 58), and q * H * 2^11 <= nsec * 2^(-en) * 2^53 *)
  unfold scaled at 2 in U. unfold scale in U.
  replace (en - 42 + 100) with (en + 58) in U by lia.
  assert (PB : 2 ^ (en + 58) * 2 ^ (- en) = 2 ^ 58).
  { rewrite <- Z.pow_add_r by lia. f_equal. lia. }
  pose proof (pow2_pos (en + 58) ltac:(lia)) as PB0.
  pose proof (pow2_pos (- en) ltac:(lia)) as PA0.
  set (A := 2 ^ (- en)) in *. set (B := 2 ^ (en + 58)) in *.
  (* q * B * H <= (H - 1) * 2^100 *)
  assert (X : Zpos qp * B * 3600000000000 <= (3600000000000 - 1) * 2 ^ 100).
  { assert (Zpos qp * 3600000000000 <= (3600000000000 - 1) * A * 2 ^ 42).
    { unfold mH in Hqm. rewrite Vn in Hqm.
      change (Zpos 7372800000000000) with (3600000000000 * 2 ^ 11) in Hqm.
      change (2 ^ 53) with (2 ^ 42 * 2 ^ 11) in Hqm.
      assert (nsec * A <= (3600000000000 - 1) * A) by nia.
      nia. }
    change (2 ^ 100) with (2 ^ 42 * 2 ^ 58). rewrite <- PB. nia. }
  lia.
Qed.

Lemma shl_align_fst (m : positive) (e e' : Z) :
  e' <= e -> Zpos (fst (shl_align m e e')) = Zpos m * 2 ^ (e - e').
Proof.
  intros H. destruct (Z.eq_dec e' e) as [->|N].
  - rewrite shl_align_keep by lia. rewrite Z.sub_diag. cbn [fst]. lia.
  - destruct (shl_align_shift m e e' ltac:(lia)) as (m' & A & B).
    rewrite A. exact B.
Qed.

(** The sum of two positive floats with 53-bit mantissas: the exact sum,
    rounded. *)
Lemma add_scaled (mh : positive) (eh : Z) (mq : positive) (eq : Z) :
  Zpos (Pos.size mh) = 53 -> Zpos (Pos.size mq) = 53 ->
  - scale <= eh <= 0 -> - scale <= eq <= 0 ->
  exists m3 e3 j,
    SFadd prec emax (S754_finite false mh eh) (S754_finite false mq eq)
      = S754_finite false m3 e3
    /\ Zpos (Pos.size m3) = 53
    /\ - scale <= e3 <= scale
    /\ 0 <= j
    /\ 2 ^ 52 * 2 ^ j <= scaled mh eh + scaled mq eq < 2 ^ 53 * 2 ^ j
    /\ (scaled m3 e3 = (scaled mh eh + scaled mq eq) / 2 ^ j * 2 ^ j
        \/ scaled m3 e3 = ((scaled mh eh + scaled mq eq) / 2 ^ j + 1) * 2 ^ j).
Proof.
  intros Sh Sq Heh Heq. unfold scale in *.
  pose proof (size_bounds mh) as [Lh Hh]. rewrite Sh in Lh, Hh.
  pose proof (size_bounds mq) as [Lq Hq]. rewrite Sq in Lq, Hq.
  change (2 ^ (53 - 1)) with (2 ^ 52) in *.
  unfold SFadd. set (ez := Z.min eh eq).
  assert (Hez : -100 <= ez <= 0 /\ ez <= eh /\ ez <= eq) by (unfold ez; lia).
  cbn [cond_Zopp].
  rewrite !shl_align_fst by lia.
  pose proof (pow2_pos (eh - ez) ltac:(lia)) as Ph.
  pose proof (pow2_pos (eq - ez) ltac:(lia)) as Pq.
  pose proof (pow2_pos (- ez) ltac:(lia)) as Pz.
  assert (Bh : 2 ^ (eh - ez) <= 2 ^ (- ez)) by (apply Z.pow_le_mono_r; lia).
  assert (Bq : 2 ^ (eq - ez) <= 2 ^ (- ez)) by (apply Z.pow_le_mono_r; lia).
  destruct (Zpos mh * 2 ^ (eh - ez) + Zpos mq * 2 ^ (eq - ez)) as [|M|M] eqn:EM;
    try nia.
  cbn [binary_normalize]. unfold binary_round.
  pose proof (size_bounds M) as [LM HM].
  assert (SM : 53 <= Zpos (Pos.size M) /\ Zpos (Pos.size M) + ez <= 54).
  { split.
    - destruct (Z.leb_spec 53 (Zpos (Pos.size M))); [assumption|]. exfalso.
      assert (2 ^ Zpos (Pos.size M) <= 2 ^ 52) by (apply Z.pow_le_mono_r; lia). nia.
    - destruct (Z.leb_spec (Zpos (Pos.size M) + ez) 54); [assumption|]. exfalso.
      assert (2 ^ (54 - ez) <= 2 ^ (Zpos (Pos.size M) - 1)) by (apply Z.pow_le_mono_r; lia).
      assert (E54 : 2 ^ (54 - ez) = 2 ^ 53 * 2 ^ (- ez) + 2 ^ 53 * 2 ^ (- ez)).
      { replace (54 - ez) with (1 + 53 + - ez) by lia.
        rewrite !Z.pow_add_r by lia. change (2 ^ 1) with 2. ring. }
      nia. }
  rewrite digits2_pos_size, fexp_normal by lia.
  rewrite shl_align_keep by lia.
  destruct (binary_round_aux_scaled false M ez loc_Exact)
    as (m3 & e3 & j & R & Sz3 & He3 & Hj & Hx & Hv); try (unfold scale; lia).
  assert (VM : scaled M ez = scaled mh eh + scaled mq eq).
  { unfold scaled, scale. rewrite <- EM.
    replace (eh + 100) with ((eh - ez) + (ez + 100)) by lia.
    replace (eq + 100) with ((eq - ez) + (ez + 100)) by lia.
    rewrite (Z.pow_add_r 2 (eh - ez) (ez + 100)),
      (Z.pow_add_r 2 (eq - ez) (ez + 100)) by lia.
    ring. }
  rewrite VM in Hx, Hv.
  exists m3, e3, j. split; [exact R|]. split; [exact Sz3|].
  split; [|split; [exact Hj|split; [exact Hx|exact Hv]]].
  (* the exponent of the result *)
  split; [lia|].
  destruct (Z.leb_spec e3 100); [assumption|]. exfalso. lia.
Qed.

Lemma leb28_nonpos (f : spec_float) : nonpos f -> SFleb f28 f = false.
Proof.
  rewrite f28_eq.
  destruct f as [s|s| |s m e]; simpl; intros H; subst; reflexivity || contradiction.
Qed.

Lemma shr_nonneg (mrs : shr_record) (e n : Z) :
  0 <= shr_m mrs -> 0 <= shr_m (fst (shr mrs e n)).
Proof.
  intros H. destruct n as [|p|p]; cbn [shr fst]; try assumption.
  rewrite iter_shr_m by assumption. apply Z.div_pos; [assumption|].
  apply Z.pow_pos_nonneg; lia.
Qed.

Lemma binary_round_aux_sign (s : bool) (m e : Z) (l : location) :
  0 <= m ->
  match binary_round_aux prec emax s m e l with
  | S754_zero s' | S754_infinity s' | S754_finite s' _ _ => s' = s
  | S754_nan => False
  end.
Proof.
  intros Hm. unfold binary_round_aux, shr_fexp.
  match goal with |- context [shr ?a ?b ?c] =>
    pose proof (shr_nonneg a b c) as H1; destruct (shr a b c) as [mrs1 e1] end.
  rewrite shr_record_of_loc_m in H1. specialize (H1 Hm). cbn [fst] in H1.
  assert (H2 : 0 <= round_nearest_even (shr_m mrs1) (loc_of_shr_record mrs1))
    by (destruct (rne_cases (shr_m mrs1) (loc_of_shr_record mrs1)); lia).
  match goal with |- context [shr ?a ?b ?c] =>
    pose proof (shr_nonneg a b c) as H3; destruct (shr a b c) as [mrs2 e2] end.
  rewrite shr_record_of_loc_m in H3. specialize (H3 H2). cbn [fst] in H3.
  destruct (shr_m mrs2) as [|p|p]; [reflexivity| |lia].
  destruct (e2 <=? emax - prec); reflexivity.
Qed.

Lemma of_int_nonpos (z : Z) : z <= 0 -> nonpos (of_int z).
Proof.
  intros H. destruct z as [|p|p]; [exact I|lia|].
  unfold of_int. cbn [binary_normalize]. unfold binary_round.
  destruct (shl_align p 0 _) as [mz ez].
  pose proof (binary_round_aux_sign true (Zpos mz) ez loc_Exact ltac:(lia)) as S.
  destruct (binary_round_aux prec emax true (Zpos mz) ez loc_Exact); simpl; auto.
Qed.

Lemma div_Hour_nonpos (f : spec_float) : nonpos f -> nonpos (SFdiv prec emax f fHour).
Proof.
  rewrite fHour_eq. destruct f as [s|s| |s m e]; cbn [nonpos]; intros H; try contradiction.
  - exact I.
  - subst s. reflexivity.
  - subst s. unfold SFdiv. cbn [xorb].
    destruct (SFdiv_core_binary prec emax (Zpos m) e 7372800000000000 (-11))
      as [[mz ez] lz] eqn:E.
    assert (Hq : 0 <= mz).
    { unfold SFdiv_core_binary in E.
      match type of E with context [Z.div_eucl ?a ?b] =>
        assert (Ha : 0 <= a);
        [| pose proof (Z.div_pos a b Ha ltac:(lia)) as Q; unfold Z.div in Q;
           destruct (Z.div_eucl a b) as [q r]; injection E as <- _ _; exact Q] end.
      match goal with |- 0 <= match ?s with _ => _ end => destruct s end;
        try lia. rewrite Z.shiftl_mul_pow2 by lia.
      apply Z.mul_nonneg_nonneg; [lia|]. apply Z.pow_nonneg. lia. }
    pose proof (binary_round_aux_sign true mz ez lz Hq) as S.
    destruct (binary_round_aux prec emax true mz ez lz); simpl; auto.
Qed.

Lemma add_nonpos (x y : spec_float) :
  nonpos x -> nonpos y -> nonpos (SFadd prec emax x y).
Proof.
  destruct x as [sx|sx| |sx mx ex], y as [sy|sy| |sy my ey]; cbn [nonpos];
    intros Hx Hy; try contradiction; subst; cbn [SFadd nonpos]; auto.
  - destruct sx, sy; exact I.
  - cbn [cond_Zopp].
    match goal with |- context [binary_normalize _ _ ?z _ _] =>
      assert (Hz : z < 0) by lia; destruct z as [|p|p]; try lia end.
    cbn [binary_normalize]. unfold binary_round.
    destruct (shl_align p _ _) as [mz ez].
    pose proof (binary_round_aux_sign true (Zpos mz) ez loc_Exact ltac:(lia)) as S.
    destruct (binary_round_aux prec emax true (Zpos mz) ez loc_Exact); simpl; auto.
Qed.

Lemma scaled_of_int (z : Z) (m : positive) (e : Z) :
  - scale <= e <= 0 -> Zpos m = z * 2 ^ (- e) -> scaled m e = z * 2 ^ scale.
Proof.
  intros He Hm. unfold scaled. rewrite Hm, <- Z.mul_assoc, <- Z.pow_add_r by (unfold scale in *; lia).
  f_equal. f_equal. lia.
Qed.

(** [Hours d] reaches 28.0 exactly when [d] reaches 28 hours. *)
Lemma Hours_ge_28 (d : Z) :
  - 2 ^ 63 <= d < 2 ^ 63 ->
  (geb (Hours d) f28 = true <-> 28 * Hour <= d).
Proof.
  intros Hd. unfold geb, Hours, add, div. fold fHour.
  destruct (Z.ltb_spec d 0) as [Neg|Pos].
  - (* a negative duration: both terms are zero or negative *)
    assert (Hq : Z.quot d Hour <= 0).
    { rewrite <- (Z.opp_involutive d), Z.quot_opp_l by (unfold Hour; lia).
      pose proof (Z.quot_pos (- d) Hour ltac:(lia) ltac:(unfold Hour; lia)). lia. }
    assert (Hr : Z.rem d Hour <= 0).
    { rewrite <- (Z.opp_involutive d), Z.rem_opp_l by (unfold Hour; lia).
      pose proof (Z.rem_nonneg (- d) Hour ltac:(unfold Hour; lia) ltac:(lia)). lia. }
    rewrite leb28_nonpos.
    + split; [discriminate|]. unfold Hour. lia.
    + apply add_nonpos; [|apply div_Hour_nonpos]; now apply of_int_nonpos.
  - rewrite Z.quot_div_nonneg, Z.rem_mod_nonneg by (unfold Hour; lia).
    pose proof (Z.div_mod d Hour ltac:(unfold Hour; lia)) as DM.
    pose proof (Z.mod_pos_bound d Hour ltac:(unfold Hour; lia)) as MB.
    assert (HB : 0 <= d / Hour < 2 ^ 22).
    { split; [apply Z.div_pos; unfold Hour; lia|].
      apply Z.div_lt_upper_bound; unfold Hour; lia. }
    set (hour := d / Hour) in *. set (nsec := d mod Hour) in *.
    assert (Goal28 : 28 * Hour <= d <-> 28 <= hour) by (unfold Hour in *; lia).
    rewrite Goal28.
    destruct (Z.eq_dec nsec 0) as [N0|N0].
    + rewrite N0. change (SFdiv prec emax (of_int 0) fHour) with (S754_zero false).
      destruct (Z.eq_dec hour 0) as [H0|H0].
      * rewrite H0. change (SFleb f28 _) with false. split; [discriminate|lia].
      * destruct (of_int_exact hour ltac:(lia)) as (m & e & F & Sz & He & Vm).
        rewrite F. cbn [SFadd].
        rewrite leb28_scaled by (unfold scale; try assumption; lia).
        rewrite (scaled_of_int hour) by (unfold scale; try assumption; lia).
        pose proof (pow2_pos scale ltac:(unfold scale; lia)). split; nia.
    + destruct (div_Hour_spec nsec ltac:(lia)) as (mq & eq & Q & Sq & Heq & Vq).
      rewrite Q. unfold scale in *.
      destruct (Z.eq_dec hour 0) as [H0|H0].
      * rewrite H0. change (of_int 0) with (S754_zero false). cbn [SFadd].
        rewrite leb28_scaled by (unfold scale; try assumption; lia). unfold scale.
        split; [|lia]. intros A. exfalso.
        assert ((2 ^ 42 - 1) * 2 ^ 58 < 28 * 2 ^ 100) by (vm_compute; reflexivity).
        lia.
      * destruct (of_int_exact hour ltac:(lia)) as (mh & eh & F & Sh & Heh & Vh).
        rewrite F.
        destruct (add_scaled mh eh mq eq Sh Sq ltac:(unfold scale; lia) ltac:(unfold scale; lia))
          as (m3 & e3 & j & A & Sz3 & He3 & Hj & Hx & Hv).
        rewrite A, leb28_scaled by assumption.
        rewrite (scaled_of_int hour mh eh) in Hx, Hv by (unfold scale; try assumption; lia).
        unfold scale in *.
        assert (V0 : 0 < scaled mq eq) by (unfold scaled; apply Z.mul_pos_pos; [lia|apply pow2_pos; unfold scale; lia]).
        set (x := hour * 2 ^ 100 + scaled mq eq) in *.
        split.
        -- intros G. destruct (Z.leb_spec 28 hour); [assumption|]. exfalso.
           pose proof (grid_upper _ _ _ Hj (proj1 Hx) Hv) as U.
           assert (x <= 27 * 2 ^ 100 + (2 ^ 42 - 1) * 2 ^ 58) by (unfold x; nia).
           assert ((27 * 2 ^ 100 + (2 ^ 42 - 1) * 2 ^ 58) * (2 ^ 52 + 1)
                   < 28 * 2 ^ 100 * 2 ^ 52) by (vm_compute; reflexivity).
           nia.
        -- intros G.
           assert (Hj' : j <= 100).
           { destruct (Z.leb_spec j 100); [assumption|]. exfalso.
             assert (2 ^ 101 <= 2 ^ j) by (apply Z.pow_le_mono_r; lia).
             assert (x < 2 ^ 22 * 2 ^ 100 + 2 ^ 100) by (unfold x; nia).
             assert (2 ^ 22 * 2 ^ 100 + 2 ^ 100 <= 2 ^ 52 * 2 ^ 101)
               by (vm_compute; discriminate).
             nia. }
           apply (grid_lower x j); [exact Hj | lia | exact Hv | | unfold x; nia].
           exists (28 * 2 ^ (100 - j)).
           rewrite <- Z.mul_assoc, <- Z.pow_add_r by lia.
           f_equal. f_equal. lia.
Qed.

End Float64_facts.

(** C5.  With the 28-hour threshold, [ShouldCheckForUpdates] answers true
    exactly when the time elapsed since the last check, in nanoseconds on the
    wall clock, is at least 28 hours: the float comparison loses nothing.  A
    last check 28 hours or 29 hours before now answers true, one 27 hours
    before now answers false. *)
Theorem ShouldCheckForUpdates_iff_28_hours (now : time.Time) (upd : settings.UpdateCheck) :
  (update.ShouldCheckForUpdates now upd = true <->
   (28 * time.Hour <= now - settings.LastUpdateCheck upd)%Z)
  /\ update.ShouldCheckForUpdates now
       (settings.mkUpdateCheck (now - 28 * time.Hour)%Z) = true
  /\ update.ShouldCheckForUpdates now
       (settings.mkUpdateCheck (now - 27 * time.Hour)%Z) = false
  /\ update.ShouldCheckForUpdates now
       (settings.mkUpdateCheck (now - 29 * time.Hour)%Z) = true.
Proof.
  assert (A : forall last : time.Time,
            update.ShouldCheckForUpdates now (settings.mkUpdateCheck last) = true <->
            (28 * time.Hour <= now - last)%Z).
  { intros last. unfold update.ShouldCheckForUpdates, time.Since.
    cbn [settings.LastUpdateCheck].
    fold f28. rewrite Hours_ge_28.
    - unfold time.Sub, time.minDuration, time.maxDuration, time.Hour.
      destruct (Z.ltb_spec (now - last) (- 2 ^ 63));
        [|destruct (Z.ltb_spec (2 ^ 63 - 1) (now - last))]; lia.
    - unfold time.Sub, time.minDuration, time.maxDuration.
      destruct (Z.ltb_spec (now - last) (- 2 ^ 63));
        [|destruct (Z.ltb_spec (2 ^ 63 - 1) (now - last))]; lia. }
  split; [destruct upd as [last]; apply A|].
  split; [apply A; lia|].
  split; [|apply A; unfold time.Hour; lia].
  apply Bool.not_true_is_false. rewrite A. unfold time.Hour. lia.
Qed.

(** * Further properties of the discovery *)

Section Discovery_more.

Import update.

Variable w : World.

(** The loop never touches the channel, the API address, the slug or the
    updater handle. *)
Lemma scanFormulae_frame (fs : list Formula) :
  forall check check' err,
    scanFormulae fs check = (check', err) ->
    PackageManager check' = PackageManager check
    /\ githubAPI check' = githubAPI check
    /\ slug check' = slug check
    /\ updater check' = updater check.
Proof.
  induction fs as [|o fs IH]; intros check check' err H; simpl in H.
  - injection H as <- _. repeat split.
  - destruct (String.eqb (Name o) "circleci"); [|exact (IH _ _ _ H)].
    destruct (InstalledVersions o) as [|i rest].
    + destruct (ParseHomebrewVersion (CurrentVersion o)) as [latest|e].
      * apply IH in H. exact H.
      * injection H as <- _. repeat split.
    + destruct (ParseHomebrewVersion i) as [current|e].
      * destruct (ParseHomebrewVersion (CurrentVersion o)) as [latest|e].
        -- apply IH in H. exact H.
        -- injection H as <- _. repeat split.
      * injection H as <- _. repeat split.
Qed.

(** What [checkFromSource] returns, read off the answers of the world. *)
Lemma checkFromSource_result (check : Options) :
  checkFromSource check w =
  match NewUpdater w (githubAPI check) with
  | Err err => ((check, Some err), [EvNewUpdater (githubAPI check)])
  | Ok u =>
      let '(latest, found, err) := DetectLatest w u (slug check) in
      ((mkOptions (Current check) found latest (PackageManager check) (Some u)
          (githubAPI check) (slug check),
        match err with
        | Some e => Some (errors_Wrap e rateLimitHelp)
        | None => None
        end),
       [EvNewUpdater (githubAPI check); EvDetectLatest (slug check)])
  end.
Proof.
  unfold checkFromSource, latestRelease, bind, selfupdate_NewUpdater,
    selfupdate_DetectLatest, ret.
  destruct (NewUpdater w (githubAPI check)) as [u|e]; [|reflexivity].
  cbn. destruct (DetectLatest w u (slug check)) as [[latest found] [e|]]; reflexivity.
Qed.

(** The calls [checkFromHomebrew] makes. *)
Lemma checkFromHomebrew_trace (check : Options) :
  snd (checkFromHomebrew check w) =
  match LookPath w "brew" with
  | Err _ => [EvLookPath "brew"]
  | Ok brew => [EvLookPath "brew"; EvOutput brew ["outdated"; "--json=v2"]]
  end.
Proof.
  unfold checkFromHomebrew, bind, exec_LookPath, exec_Output, json_Unmarshal, ret.
  destruct (LookPath w "brew") as [brew|e]; [|reflexivity].
  destruct (Output w brew _) as [out|e]; [|reflexivity].
  destruct (Unmarshal w out) as [d|e]; [|reflexivity].
  cbn. destruct (scanFormulae (Formulae d) check). reflexivity.
Qed.

(** [CheckForUpdates] once the version has parsed: the switch. *)
Lemma CheckForUpdates_parsed (api slug current pm : string) (v0 : semver.Version) :
  semver.Parse current = Ok v0 ->
  CheckForUpdates api slug current pm w =
  let check := mkOptions v0 false None pm None api slug in
  let r := if String.eqb pm "release" then checkFromSource check w
           else if String.eqb pm "source" then checkFromSource check w
           else if String.eqb pm "homebrew" then checkFromHomebrew check w
           else ((check, None), []) in
  ((Some (fst (fst r)), snd (fst r)), snd r).
Proof.
  intros P. unfold CheckForUpdates. rewrite P. cbn [PackageManager].
  unfold bind, ret.
  destruct (String.eqb pm "release");
    [destruct (checkFromSource _ w) as [[c e] t]; cbn; now rewrite app_nil_r|].
  destruct (String.eqb pm "source");
    [destruct (checkFromSource _ w) as [[c e] t]; cbn; now rewrite app_nil_r|].
  destruct (String.eqb pm "homebrew");
    [destruct (checkFromHomebrew _ w) as [[c e] t]; cbn; now rewrite app_nil_r|].
  reflexivity.
Qed.

End Discovery_more.

Section Discovery_scan.

Import update.

Lemma scanFormulae_app (fs gs : list Formula) :
  forall check,
    scanFormulae (fs ++ gs) check =
    match scanFormulae fs check with
    | (c, None) => scanFormulae gs c
    | (c, Some e) => (c, Some e)
    end.
Proof.
  induction fs as [|o fs IH]; intros check; simpl; [reflexivity|].
  destruct (String.eqb (Name o) "circleci"); [|apply IH].
  destruct (InstalledVersions o) as [|i rest].
  - destruct (ParseHomebrewVersion (CurrentVersion o)); [apply IH|reflexivity].
  - destruct (ParseHomebrewVersion i); [|reflexivity].
    destruct (ParseHomebrewVersion (CurrentVersion o)); [apply IH|reflexivity].
Qed.

(** The loop ends without an error exactly when every entry parses. *)
Lemma scanFormulae_no_error (fs : list Formula) :
  forall check, snd (scanFormulae fs check) = None <-> forallb entryParses fs = true.
Proof.
  induction fs as [|o fs IH]; intros check; simpl; [tauto|].
  unfold entryParses at 1.
  destruct (String.eqb (Name o) "circleci"); simpl; [|apply IH].
  destruct (InstalledVersions o) as [|i rest].
  - destruct (ParseHomebrewVersion (CurrentVersion o)); simpl; [apply IH|].
    split; discriminate.
  - destruct (ParseHomebrewVersion i); simpl; [|split; discriminate].
    destruct (ParseHomebrewVersion (CurrentVersion o)); simpl; [apply IH|].
    split; discriminate.
Qed.

Lemma scanFormulae_inv (fs : list Formula) :
  forall check check' err,
    scanFormulae fs check = (check', err) -> homebrewInv check -> homebrewInv check'.
Proof.
  assert (Fresh : forall cur pm u api sl v,
            homebrewInv (mkOptions cur true (Some (mkRelease v None)) pm u api sl)).
  { intros. split; cbn.
    - split; [discriminate|reflexivity].
    - intros r E. injection E as <-. reflexivity. }
  induction fs as [|o fs IH]; intros check check' err H I; simpl in H.
  - injection H as <- _. exact I.
  - destruct (String.eqb (Name o) "circleci"); [|exact (IH _ _ _ H I)].
    destruct (InstalledVersions o) as [|i rest].
    + destruct (ParseHomebrewVersion (CurrentVersion o)) as [latest|e].
      * apply (IH _ _ _ H). apply Fresh.
      * injection H as <- _. exact I.
    + destruct (ParseHomebrewVersion i) as [current|e].
      * destruct (ParseHomebrewVersion (CurrentVersion o)) as [latest|e].
        -- apply (IH _ _ _ H). apply Fresh.
        -- injection H as <- _. exact I.
      * injection H as <- _. exact I.
Qed.

(** An error of the loop is the parse failure of a version string of an
    entry named circleci, and carries that string. *)
Lemma scanFormulae_error (fs : list Formula) :
  forall check check' err,
    scanFormulae fs check = (check', Some err) ->
    exists o raw cause,
      In o fs /\ Name o = "circleci"
      /\ (raw = CurrentVersion o \/ exists rest, InstalledVersions o = raw :: rest)
      /\ semver.Parse (withRevisionAsTag raw) = Err cause
      /\ err = fmt_Errorf "failed to parse current version from %s: %s"
                 [arg_string raw; arg_error cause].
Proof.
  assert (PE : forall raw e, ParseHomebrewVersion raw = Err e ->
             exists cause, semver.Parse (withRevisionAsTag raw) = Err cause
               /\ e = fmt_Errorf "failed to parse current version from %s: %s"
                        [arg_string raw; arg_error cause]).
  { intros raw e. unfold ParseHomebrewVersion.
    destruct (semver.Parse (withRevisionAsTag raw)) as [v|c]; [discriminate|].
    intros E. injection E as <-. now exists c. }
  induction fs as [|o fs IH]; intros check check' err H; simpl in H; [discriminate|].
  assert (Tail : forall c, scanFormulae fs c = (check', Some err) ->
            exists o' raw cause,
              In o' (o :: fs) /\ Name o' = "circleci"
              /\ (raw = CurrentVersion o' \/ exists rest, InstalledVersions o' = raw :: rest)
              /\ semver.Parse (withRevisionAsTag raw) = Err cause
              /\ err = fmt_Errorf "failed to parse current version from %s: %s"
                         [arg_string raw; arg_error cause]).
  { intros c Hc. destruct (IH _ _ _ Hc) as (o' & raw & cause & Hin & R).
    exists o', raw, cause. split; [now right|exact R]. }
  destruct (String.eqb_spec (Name o) "circleci") as [En|En]; [|exact (Tail _ H)].
  assert (Cur : forall e c, ParseHomebrewVersion (CurrentVersion o) = Err e ->
            (c, Some e) = (check', Some err) ->
            exists o' raw cause,
              In o' (o :: fs) /\ Name o' = "circleci"
              /\ (raw = CurrentVersion o' \/ exists rest, InstalledVersions o' = raw :: rest)
              /\ semver.Parse (withRevisionAsTag raw) = Err cause
              /\ err = fmt_Errorf "failed to parse current version from %s: %s"
                         [arg_string raw; arg_error cause]).
  { intros e c Pe E. injection E as _ <-. destruct (PE _ _ Pe) as (cause & Pc & Ee).
    exists o, (CurrentVersion o), cause. repeat split; auto. now left. }
  destruct (InstalledVersions o) as [|i rest] eqn:Ei.
  - destruct (ParseHomebrewVersion (CurrentVersion o)) as [latest|e] eqn:Pc.
    + now apply Tail in H.
    + exact (Cur _ _ eq_refl H).
  - destruct (ParseHomebrewVersion i) as [current|e] eqn:Pi.
    + destruct (ParseHomebrewVersion (CurrentVersion o)) as [latest|e] eqn:Pc.
      * now apply Tail in H.
      * exact (Cur _ _ eq_refl H).
    + injection H as _ <-. destruct (PE _ _ Pi) as (cause & Pc & Ee).
      exists o, i, cause. repeat split; auto; [now left | right; now exists rest].
Qed.

(** One matching entry, processed without error. *)
Lemma scanFormulae_last (o : Formula) (post : list Formula) (c check' : Options) :
  Name o = "circleci" ->
  Forall (fun o' => Name o' <> "circleci") post ->
  scanFormulae (o :: post) c = (check', None) ->
  exists v,
    ParseHomebrewVersion (CurrentVersion o) = Ok v
    /\ Latest check' = Some (mkRelease v None)
    /\ Found check' = true
    /\ match InstalledVersions o with
       | i :: _ => ParseHomebrewVersion i = Ok (Current check')
       | [] => Current check' = Current c
       end.
Proof.
  intros Hn Hpost H. simpl in H. rewrite Hn in H. cbn in H.
  destruct (InstalledVersions o) as [|i rest].
  - destruct (ParseHomebrewVersion (CurrentVersion o)) as [latest|e]; [|discriminate].
    rewrite scanFormulae_no_match in H by assumption. injection H as <-.
    exists latest. repeat split.
  - destruct (ParseHomebrewVersion i) as [current|e]; [|discriminate].
    destruct (ParseHomebrewVersion (CurrentVersion o)) as [latest|e]; [|discriminate].
    rewrite scanFormulae_no_match in H by assumption. injection H as <-.
    exists latest. repeat split.
Qed.

End Discovery_scan.

(** ** What [CheckForUpdates] returns and calls *)

(** X1.  [CheckForUpdates] returns the nil record exactly when the caller's
    version string does not parse: every failure of a discovery comes with
    the record. *)
Theorem CheckForUpdates_nil_record_iff
    (w : update.World) (api slug current pm : string) :
  fst (fst (update.CheckForUpdates api slug current pm w)) = None
  <-> exists e, semver.Parse current = Err e.
Proof.
  destruct (semver.Parse current) as [v0|e] eqn:P.
  - rewrite (CheckForUpdates_parsed w api slug current pm v0 P). cbn.
    split; [discriminate|]. intros [e E]. discriminate.
  - unfold update.CheckForUpdates. rewrite P. cbn.
    split; [intros _; now exists e | reflexivity].
Qed.

(** X2.  The record [CheckForUpdates] returns carries the channel, the API
    address and the slug the caller passed: no discovery changes them. *)
Theorem CheckForUpdates_keeps_channel
    (w : update.World) (api slug current pm : string)
    (check : update.Options) (err : option error) (t : list update.Event) :
  update.CheckForUpdates api slug current pm w = ((Some check, err), t) ->
  update.PackageManager check = pm
  /\ update.githubAPI check = api
  /\ update.slug check = slug.
Proof.
  intros H.
  destruct (semver.Parse current) as [v0|e] eqn:P;
    [|unfold update.CheckForUpdates in H; rewrite P in H; discriminate].
  rewrite (CheckForUpdates_parsed w api slug current pm v0 P) in H.
  cbv zeta in H. injection H as <- _ _.
  destruct (String.eqb pm "release");
    [rewrite checkFromSource_result; cbn;
     destruct (update.NewUpdater w api) as [u|e];
     [destruct (update.DetectLatest w u slug) as [[l f] o]|]; repeat split|].
  destruct (String.eqb pm "source");
    [rewrite checkFromSource_result; cbn;
     destruct (update.NewUpdater w api) as [u|e];
     [destruct (update.DetectLatest w u slug) as [[l f] o]|]; repeat split|].
  destruct (String.eqb pm "homebrew"); [|repeat split].
  rewrite checkFromHomebrew_result.
  destruct (update.LookPath w "brew") as [brew|e]; [|repeat split].
  destruct (update.Output w brew _) as [out|e]; [|repeat split].
  destruct (update.Unmarshal w out) as [doc|e]; [|repeat split].
  destruct (update.scanFormulae (update.Formulae doc) _) as [c e] eqn:S.
  destruct (scanFormulae_frame _ _ _ _ S) as (A & B & C & _). cbn. auto.
Qed.

Lemma CheckForUpdates_keeps_channel_witness :
  let r := update.CheckForUpdates "" "circleci/circleci-cli" "0.1.0" "homebrew"
             (brewWorld circleciOutdated) in
  exists check,
    fst (fst r) = Some check
    /\ update.PackageManager check = "homebrew"
    /\ update.githubAPI check = ""
    /\ update.slug check = "circleci/circleci-cli".
Proof.
  eexists. split; [vm_compute; reflexivity|].
  apply (CheckForUpdates_keeps_channel (brewWorld circleciOutdated)
           "" "circleci/circleci-cli" "0.1.0" "homebrew" _ None
           [update.EvLookPath "brew";
            update.EvOutput "/usr/local/bin/brew" ["outdated"; "--json=v2"]]).
  vm_compute. reflexivity.
Defined.

(** X3.  The calls of one check, in order.  A string that does not parse
    makes none; the release and source channels make an updater and, if that
    succeeds, ask it for the latest release of the slug; the homebrew channel
    looks [brew] up and, if found, runs the path it was given with
    [outdated --json=v2]; any other channel makes none.  No check calls the
    collaborators of another channel. *)
Theorem CheckForUpdates_calls
    (w : update.World) (api slug current pm : string) :
  snd (update.CheckForUpdates api slug current pm w) =
  match semver.Parse current with
  | Err _ => []
  | Ok _ =>
      if String.eqb pm "release" || String.eqb pm "source" then
        match update.NewUpdater w api with
        | Err _ => [update.EvNewUpdater api]
        | Ok _ => [update.EvNewUpdater api; update.EvDetectLatest slug]
        end
      else if String.eqb pm "homebrew" then
        match update.LookPath w "brew" with
        | Err _ => [update.EvLookPath "brew"]
        | Ok brew => [update.EvLookPath "brew";
                      update.EvOutput brew ["outdated"; "--json=v2"]]
        end
      else []
  end.
Proof.
  destruct (semver.Parse current) as [v0|e] eqn:P;
    [|unfold update.CheckForUpdates; rewrite P; reflexivity].
  rewrite (CheckForUpdates_parsed w api slug current pm v0 P). cbv zeta. cbn [snd].
  destruct (String.eqb pm "release"); cbn [orb];
    [rewrite checkFromSource_result; cbn;
     destruct (update.NewUpdater w api) as [u|e];
     [destruct (update.DetectLatest w u slug) as [[l f] o]|]; reflexivity|].
  destruct (String.eqb pm "source");
    [rewrite checkFromSource_result; cbn;
     destruct (update.NewUpdater w api) as [u|e];
     [destruct (update.DetectLatest w u slug) as [[l f] o]|]; reflexivity|].
  destruct (String.eqb pm "homebrew"); [|reflexivity].
  apply checkFromHomebrew_trace.
Qed.

(** X4.  On the release and source channels the record holds the release
    and the found flag exactly as [DetectLatest] reported them, also when it
    reports an error, which comes back wrapped with the rate-limit advice; an
    error of [NewUpdater] comes back as it is, with the record as built.  The
    two channels differ in the channel field only. *)
Theorem CheckForUpdates_release_source
    (w : update.World) (api slug current pm : string) (v0 : semver.Version) :
  pm = "release" \/ pm = "source" ->
  semver.Parse current = Ok v0 ->
  fst (update.CheckForUpdates api slug current pm w) =
  match update.NewUpdater w api with
  | Err e => (Some (update.mkOptions v0 false None pm None api slug), Some e)
  | Ok u =>
      let '(latest, found, err) := update.DetectLatest w u slug in
      (Some (update.mkOptions v0 found latest pm (Some u) api slug),
       match err with
       | Some e => Some (errors_Wrap e update.rateLimitHelp)
       | None => None
       end)
  end.
Proof.
  intros Hpm P. rewrite (CheckForUpdates_parsed w api slug current pm v0 P).
  cbv zeta. cbn [fst].
  assert (E : (if String.eqb pm "release"
               then update.checkFromSource (update.mkOptions v0 false None pm None api slug) w
               else if String.eqb pm "source"
               then update.checkFromSource (update.mkOptions v0 false None pm None api slug) w
               else if String.eqb pm "homebrew"
               then update.checkFromHomebrew (update.mkOptions v0 false None pm None api slug) w
               else ((update.mkOptions v0 false None pm None api slug, None), []))
              = update.checkFromSource (update.mkOptions v0 false None pm None api slug) w).
  { destruct Hpm as [-> | ->]; reflexivity. }
  rewrite E, checkFromSource_result. cbn.
  destruct (update.NewUpdater w api) as [u|e]; [|reflexivity].
  destruct (update.DetectLatest w u slug) as [[l f] o]. reflexivity.
Qed.

Lemma CheckForUpdates_release_source_witness :
  fst (update.CheckForUpdates "" "circleci/circleci-cli" "0.1.0" "release"
         (releaseWorld (update.mkRelease (semver.mkVersion 0 1 3923 [] []) None))) =
  (Some (update.mkOptions (semver.mkVersion 0 1 0 [] []) true
           (Some (update.mkRelease (semver.mkVersion 0 1 3923 [] []) None))
           "release" (Some (update.mkUpdater "")) "" "circleci/circleci-cli"),
   None).
Proof.
  exact (CheckForUpdates_release_source
           (releaseWorld (update.mkRelease (semver.mkVersion 0 1 3923 [] []) None))
           "" "circleci/circleci-cli" "0.1.0" "release" (semver.mkVersion 0 1 0 [] [])
           (or_introl eq_refl) eq_refl).
Defined.

(** ** The homebrew channel *)

(** X5.  The homebrew discovery returns a nil error exactly when [brew] is
    found, its run succeeds, its output decodes, and in every entry named
    circleci the first installed version (if there is one) and the current
    version parse. *)
Theorem checkFromHomebrew_no_error_iff (w : update.World) (check : update.Options) :
  snd (fst (update.checkFromHomebrew check w)) = None
  <-> exists brew out doc,
        update.LookPath w "brew" = Ok brew
        /\ update.Output w brew ["outdated"; "--json=v2"] = Ok out
        /\ update.Unmarshal w out = Ok doc
        /\ forallb entryParses (update.Formulae doc) = true.
Proof.
  rewrite checkFromHomebrew_result.
  destruct (update.LookPath w "brew") as [brew|e] eqn:Lb.
  2:{ split; [discriminate|]. intros (b & o & d & E & _). discriminate. }
  destruct (update.Output w brew _) as [out|e] eqn:Lo.
  2:{ split; [discriminate|]. intros (b & o & d & E1 & E2 & _).
      injection E1 as <-. rewrite Lo in E2. discriminate. }
  destruct (update.Unmarshal w out) as [doc|e] eqn:Lu.
  2:{ split; [discriminate|]. intros (b & o & d & E1 & E2 & E3 & _).
      injection E1 as <-. rewrite Lo in E2. injection E2 as <-.
      rewrite Lu in E3. discriminate. }
  rewrite scanFormulae_no_error. split.
  - intros H. now exists brew, out, doc.
  - intros (b & o & d & E1 & E2 & E3 & H).
    injection E1 as <-. rewrite Lo in E2. injection E2 as <-.
    rewrite Lu in E3. injection E3 as <-. exact H.
Qed.

(** X6.  Every error of the homebrew discovery names its cause.  It is the
    error of [LookPath], of the run or of the decoding, wrapped with a message
    of its own and with the record untouched; or it is the parse failure of a
    version string of an entry named circleci, and carries that string. *)
Theorem checkFromHomebrew_error_cases
    (w : update.World) (check check' : update.Options) (err : error) :
  fst (update.checkFromHomebrew check w) = (check', Some err) ->
  (exists cause,
     update.LookPath w "brew" = Err cause /\ check' = check
     /\ err = errors_Wrap cause
                "Expected to find `brew` in your $PATH but wasn't able to find it")
  \/ (exists brew cause,
        update.LookPath w "brew" = Ok brew
        /\ update.Output w brew ["outdated"; "--json=v2"] = Err cause /\ check' = check
        /\ err = errors_Wrap cause
                   "failed to check for updates. `brew outdated --json=v2` returned an error")
  \/ (exists brew out cause,
        update.LookPath w "brew" = Ok brew
        /\ update.Output w brew ["outdated"; "--json=v2"] = Ok out
        /\ update.Unmarshal w out = Err cause /\ check' = check
        /\ err = errors_Wrap cause "failed to parse output of `brew outdated --json=v2`")
  \/ (exists brew out doc o raw cause,
        update.LookPath w "brew" = Ok brew
        /\ update.Output w brew ["outdated"; "--json=v2"] = Ok out
        /\ update.Unmarshal w out = Ok doc
        /\ In o (update.Formulae doc) /\ update.Name o = "circleci"
        /\ (raw = update.CurrentVersion o
            \/ exists rest, update.InstalledVersions o = raw :: rest)
        /\ semver.Parse (update.withRevisionAsTag raw) = Err cause
        /\ err = fmt_Errorf "failed to parse current version from %s: %s"
                   [arg_string raw; arg_error cause]).
Proof.
  rewrite checkFromHomebrew_result.
  destruct (update.LookPath w "brew") as [brew|e] eqn:Lb.
  2:{ intros H. injection H as <- <-. left. now exists e. }
  destruct (update.Output w brew _) as [out|e] eqn:Lo.
  2:{ intros H. injection H as <- <-. right. left. now exists brew, e. }
  destruct (update.Unmarshal w out) as [doc|e] eqn:Lu.
  2:{ intros H. injection H as <- <-. right. right. left. now exists brew, out, e. }
  intros H. right. right. right.
  destruct (scanFormulae_error _ _ _ _ H) as (o & raw & cause & Hin & Hn & Hr & Pc & Ee).
  exists brew, out, doc, o, raw, cause. repeat split; assumption.
Qed.

Lemma checkFromHomebrew_error_cases_witness :
  let w := releaseWorld (update.mkRelease semver.zero None) in
  let check := opts_example semver.zero semver.zero in
  let err := errors_Wrap (errors_New "executable file not found in $PATH")
               "Expected to find `brew` in your $PATH but wasn't able to find it" in
  (exists cause,
     update.LookPath w "brew" = Err cause /\ check = check
     /\ err = errors_Wrap cause
                "Expected to find `brew` in your $PATH but wasn't able to find it")
  \/ (exists brew cause,
        update.LookPath w "brew" = Ok brew
        /\ update.Output w brew ["outdated"; "--json=v2"] = Err cause /\ check = check
        /\ err = errors_Wrap cause
                   "failed to check for updates. `brew outdated --json=v2` returned an error")
  \/ (exists brew out cause,
        update.LookPath w "brew" = Ok brew
        /\ update.Output w brew ["outdated"; "--json=v2"] = Ok out
        /\ update.Unmarshal w out = Err cause /\ check = check
        /\ err = errors_Wrap cause "failed to parse output of `brew outdated --json=v2`")
  \/ (exists brew out doc o raw cause,
        update.LookPath w "brew" = Ok brew
        /\ update.Output w brew ["outdated"; "--json=v2"] = Ok out
        /\ update.Unmarshal w out = Ok doc
        /\ In o (update.Formulae doc) /\ update.Name o = "circleci"
        /\ (raw = update.CurrentVersion o
            \/ exists rest, update.InstalledVersions o = raw :: rest)
        /\ semver.Parse (update.withRevisionAsTag raw) = Err cause
        /\ err = fmt_Errorf "failed to parse current version from %s: %s"
                   [arg_string raw; arg_error cause]).
Proof.
  exact (checkFromHomebrew_error_cases
           (releaseWorld (update.mkRelease semver.zero None))
           (opts_example semver.zero semver.zero)
           (opts_example semver.zero semver.zero)
           (errors_Wrap (errors_New "executable file not found in $PATH")
              "Expected to find `brew` in your $PATH but wasn't able to find it")
           eq_refl).
Defined.

(** X7.  What a homebrew check leaves in the record: [Found] is set exactly
    when [Latest] is, the updater handle stays nil and a [Latest] has no
    publication date.  So when [Found] is set the two reports do not fail and
    the debug report prints the date as [<nil>]; when it is not set,
    [IsLatestVersion] answers true. *)
Theorem CheckForUpdates_homebrew_record
    (w : update.World) (api slug current : string) (fmtTime : time.Time -> string)
    (check : update.Options) (err : option error) (t : list update.Event) :
  update.CheckForUpdates api slug current "homebrew" w = ((Some check, err), t) ->
  (update.Found check = true <-> update.Latest check <> None)
  /\ update.updater check = None
  /\ (update.Found check = true ->
      exists latest,
        update.Latest check = Some latest
        /\ update.ReportVersion check =
           Some (("You are running " ++ semver.String (update.Current check))
                 ++ update.newline
                 ++ ("A new release is available ("
                     ++ semver.String (update.Version latest) ++ ")"))
        /\ update.DebugVersion fmtTime check =
           Some (("Latest version: " ++ semver.String (update.Version latest))
                 ++ update.newline ++ "Published: <nil>" ++ update.newline
                 ++ ("Current Version: " ++ semver.String (update.Current check))))
  /\ (update.Found check = false -> update.IsLatestVersion check = true).
Proof.
  intros H.
  destruct (semver.Parse current) as [v0|e] eqn:P;
    [|unfold update.CheckForUpdates in H; rewrite P in H; discriminate].
  pose proof (CheckForUpdates_homebrew w api slug current v0 P) as E.
  rewrite H in E. cbv zeta in E. cbn [fst] in E. injection E as -> _. clear H.
  set (check0 := update.mkOptions v0 false None "homebrew" None api slug).
  assert (I0 : homebrewInv check0).
  { split; cbn; [split; [discriminate|congruence]|discriminate]. }
  assert (R : homebrewInv (fst (fst (update.checkFromHomebrew check0 w)))
              /\ update.updater (fst (fst (update.checkFromHomebrew check0 w))) = None).
  { rewrite checkFromHomebrew_result.
    destruct (update.LookPath w "brew") as [brew|e]; [|now split].
    destruct (update.Output w brew _) as [out|e]; [|now split].
    destruct (update.Unmarshal w out) as [doc|e]; [|now split].
    destruct (update.scanFormulae (update.Formulae doc) check0) as [c e] eqn:S.
    split; [exact (scanFormulae_inv _ _ _ _ S I0)|].
    destruct (scanFormulae_frame _ _ _ _ S) as (_ & _ & _ & U). exact U. }
  destruct R as [[If Ip] U].
  remember (fst (fst (update.checkFromHomebrew check0 w))) as check eqn:Ec.
  clear Ec.
  split; [exact If|]. split; [exact U|]. split.
  - intros F. apply If in F.
    destruct (update.Latest check) as [latest|] eqn:L; [|congruence].
    exists latest. split; [reflexivity|].
    unfold update.ReportVersion, update.DebugVersion. rewrite L.
    rewrite (Ip latest eq_refl). split; reflexivity.
  - intros F. unfold update.IsLatestVersion. rewrite String_eqb_empty.
    destruct (update.Latest check) as [latest|] eqn:L; [|reflexivity].
    assert (update.Found check = true) by (apply If; discriminate). congruence.
Qed.

Lemma CheckForUpdates_homebrew_record_witness :
  let check := update.mkOptions (semver.mkVersion 0 1 1248 [] []) true
                 (Some (update.mkRelease (semver.mkVersion 0 1 3923 [] []) None))
                 "homebrew" None "" "circleci/circleci-cli" in
  update.updater check = None
  /\ update.ReportVersion check =
     Some ("You are running 0.1.1248" ++ update.newline
           ++ "A new release is available (0.1.3923)").
Proof.
  pose proof (CheckForUpdates_homebrew_record (brewWorld circleciOutdated)
                "" "circleci/circleci-cli" "0.1.0" (fun _ => "")
                (update.mkOptions (semver.mkVersion 0 1 1248 [] []) true
                   (Some (update.mkRelease (semver.mkVersion 0 1 3923 [] []) None))
                   "homebrew" None "" "circleci/circleci-cli")
                None
                [update.EvLookPath "brew";
                 update.EvOutput "/usr/local/bin/brew" ["outdated"; "--json=v2"]]
                eq_refl) as (_ & U & R & _).
  split; [exact U|].
  destruct (R eq_refl) as (latest & L & Rep & _).
  injection L as <-. exact Rep.
Defined.

(** X8.  The loop does not stop at the first match: when several entries are
    named circleci and none fails to parse, the last of them decides.
    [Latest] is its parsed current version and [Current] its parsed first
    installed version. *)
Theorem checkFromHomebrew_last_entry_decides
    (w : update.World) (check check' : update.Options) (brew out : string)
    (doc : update.HomebrewOutdated) (pre post : list update.Formula) (o : update.Formula) :
  update.LookPath w "brew" = Ok brew ->
  update.Output w brew ["outdated"; "--json=v2"] = Ok out ->
  update.Unmarshal w out = Ok doc ->
  update.Formulae doc = (pre ++ o :: post)%list ->
  update.Name o = "circleci" ->
  Forall (fun o' => update.Name o' <> "circleci") post ->
  fst (update.checkFromHomebrew check w) = (check', None) ->
  exists v,
    update.ParseHomebrewVersion (update.CurrentVersion o) = Ok v
    /\ update.Latest check' = Some (update.mkRelease v None)
    /\ update.Found check' = true
    /\ (forall i rest, update.InstalledVersions o = i :: rest ->
        update.ParseHomebrewVersion i = Ok (update.Current check')).
Proof.
  intros Lb Lo Lu Hd Hn Hpost H.
  rewrite checkFromHomebrew_result, Lb, Lo, Lu, Hd, scanFormulae_app in H.
  destruct (update.scanFormulae pre check) as [c [e|]]; [discriminate|].
  destruct (scanFormulae_last o post c check' Hn Hpost H) as (v & Pv & L & F & C).
  exists v. repeat split; try assumption.
  intros i rest Ei. rewrite Ei in C. exact C.
Qed.

Lemma checkFromHomebrew_last_entry_decides_witness :
  exists check',
    fst (update.checkFromHomebrew (opts_example semver.zero semver.zero)
           (brewWorld twiceOutdated)) = (check', None)
    /\ update.Latest check' =
       Some (update.mkRelease (semver.mkVersion 0 1 3923 [] []) None)
    /\ update.Current check' =
       semver.mkVersion 0 1 1248 [semver.mkPR "" 1 true] [].
Proof.
  eexists. split; [vm_compute; reflexivity|].
  destruct (checkFromHomebrew_last_entry_decides (brewWorld twiceOutdated)
              (opts_example semver.zero semver.zero)
              (update.mkOptions (semver.mkVersion 0 1 1248 [semver.mkPR "" 1 true] []) true
                 (Some (update.mkRelease (semver.mkVersion 0 1 3923 [] []) None))
                 "release" None "" "circleci/circleci-cli")
              "/usr/local/bin/brew" "{}" twiceOutdated
              [update.mkFormula "circleci" ["0.1.1000"] "0.1.2000" false "";
               update.mkFormula "git" ["2.30.0"] "2.31.1" false ""]
              []
              (update.mkFormula "circleci" ["0.1.1248_1"] "0.1.3923" false "")
              eq_refl eq_refl eq_refl eq_refl eq_refl (Forall_nil _) eq_refl)
    as (v & Pv & L & _ & _).
  split; [|reflexivity].
  rewrite L. vm_compute in Pv. injection Pv as <-. reflexivity.
Defined.

(** ** The bytes a version string may hold *)

Section Bytes.

Variable c : ascii.

Lemma ContainsRune_app (a b : string) :
  strings.ContainsRune (a ++ b) c = strings.ContainsRune a c || strings.ContainsRune b c.
Proof.
  induction a as [|x a IH]; simpl; [reflexivity|].
  rewrite IH. now rewrite orb_assoc.
Qed.

Lemma IndexRune_ge (s : string) (x : ascii) : (-1 <= strings.IndexRune s x)%Z.
Proof.
  induction s as [|a s IH]; simpl; [lia|].
  destruct (Ascii.eqb a x); [lia|].
  destruct (Z.eqb_spec (strings.IndexRune s x) (-1)); lia.
Qed.

Lemma slice_from_0 (s : string) : strings.slice_from s 0 = s.
Proof. destruct s; reflexivity. Qed.

(** [IndexRune] cuts the string at the first occurrence. *)
Lemma IndexRune_cut (s : string) (x : ascii) :
  (strings.IndexRune s x <> -1)%Z ->
  s = strings.slice_to s (Z.to_nat (strings.IndexRune s x))
      ++ String x (strings.slice_from s (Z.to_nat (strings.IndexRune s x) + 1)).
Proof.
  induction s as [|a s IH]; simpl; [intros H; now contradiction H|].
  destruct (Ascii.eqb_spec a x) as [->|N];
    [intros _; cbn; now rewrite slice_from_0|].
  pose proof (IndexRune_ge s x) as G.
  destruct (Z.eqb_spec (strings.IndexRune s x) (-1)) as [E|E];
    [intros H; now contradiction H|].
  intros _. specialize (IH E).
  replace (Z.to_nat (strings.IndexRune s x + 1))
    with (S (Z.to_nat (strings.IndexRune s x))) by lia.
  cbn [strings.slice_to strings.slice_from Nat.add]. simpl. now rewrite <- IH.
Qed.

Lemma IndexRune_none (s : string) (x : ascii) :
  strings.IndexRune s x = (-1)%Z -> strings.ContainsRune s x = false.
Proof.
  induction s as [|a s IH]; simpl; [reflexivity|].
  destruct (Ascii.eqb a x); [discriminate|].
  pose proof (IndexRune_ge s x).
  destruct (Z.eqb_spec (strings.IndexRune s x) (-1)) as [E|E]; [auto|lia].
Qed.

Lemma containsOnly_absent (s comp : string) :
  semver.containsOnly s comp = true ->
  strings.ContainsRune comp c = false ->
  strings.ContainsRune s c = false.
Proof.
  intros H Hc. induction s as [|a s IH]; simpl in *; [reflexivity|].
  apply andb_true_iff in H as [Ha Hs].
  rewrite (IH Hs), orb_false_r.
  destruct (Ascii.eqb_spec a c) as [->|N]; [congruence|reflexivity].
Qed.

(** A byte other than the separator that is in no piece is not in the
    string. *)
Lemma Split_absent (s : string) (sep : ascii) :
  c <> sep ->
  (forall p, In p (strings.Split s sep) -> strings.ContainsRune p c = false) ->
  strings.ContainsRune s c = false.
Proof.
  intros Hc. induction s as [|a s IH]; intros H; simpl in *; [reflexivity|].
  destruct (Ascii.eqb_spec a sep) as [->|N].
  - rewrite IH by (intros p Hp; apply H; now right).
    rewrite orb_false_r. apply Ascii.eqb_neq. congruence.
  - destruct (strings.Split s sep) as [|h t] eqn:E.
    + specialize (H _ (or_introl eq_refl)). simpl in H.
      apply orb_false_iff in H as [Ha _]. rewrite Ha. simpl.
      apply IH. intros p [].
    + pose proof (H _ (or_introl eq_refl)) as Hh. simpl in Hh.
      apply orb_false_iff in Hh as [Ha Hh]. rewrite Ha. simpl.
      apply IH. intros p [<-|Hp]; [exact Hh|]. apply H. now right.
Qed.

Lemma SplitN_3 (s : string) (sep : ascii) (p0 p1 p2 : string) :
  strings.SplitN s sep 3 = [p0; p1; p2] ->
  s = p0 ++ String sep (p1 ++ String sep p2).
Proof.
  cbn [strings.SplitN].
  destruct (strings.IndexRune s sep <? 0)%Z eqn:E0; [discriminate|].
  destruct (strings.IndexRune (strings.slice_from s _) sep <? 0)%Z eqn:E1; [discriminate|].
  intros H. injection H as <- <- <-.
  apply Z.ltb_ge in E0, E1.
  rewrite <- IndexRune_cut by lia. apply IndexRune_cut. lia.
Qed.

Hypothesis c_alphanum : strings.ContainsRune semver.alphanum c = false.

Lemma c_numbers : strings.ContainsRune semver.numbers c = false.
Proof.
  revert c_alphanum. unfold semver.alphanum, semver.numbers.
  cbn [strings.ContainsRune]. intros H.
  repeat (apply orb_false_iff in H as [?A H]; rewrite A; clear A).
  reflexivity.
Qed.

Lemma parseNumber_absent (what What s : string) (n : N) :
  semver.parseNumber what What s = Ok n -> strings.ContainsRune s c = false.
Proof.
  unfold semver.parseNumber.
  destruct (semver.containsOnly s semver.numbers) eqn:E; [|discriminate].
  intros _. exact (containsOnly_absent s _ E c_numbers).
Qed.

Lemma parsePre_absent (l : list string) :
  forall prs, semver.parsePre l = Ok prs ->
    forall p, In p l -> strings.ContainsRune p c = false.
Proof.
  induction l as [|x l IH]; intros prs H p Hp; [contradiction|].
  simpl in H. destruct (semver.NewPRVersion x) as [pr|e] eqn:Ex; [|discriminate].
  destruct (semver.parsePre l) as [prs'|e] eqn:El; [|discriminate].
  destruct Hp as [<-|Hp]; [|exact (IH _ eq_refl _ Hp)].
  unfold semver.NewPRVersion in Ex.
  destruct (String.length x =? 0)%nat; [discriminate|].
  destruct (semver.containsOnly x semver.numbers) eqn:En;
    [exact (containsOnly_absent x _ En c_numbers)|].
  destruct (semver.containsOnly x semver.alphanum) eqn:Ea; [|discriminate].
  exact (containsOnly_absent x _ Ea c_alphanum).
Qed.

Lemma parseBuild_absent (l : list string) :
  forall bs, semver.parseBuild l = Ok bs ->
    forall p, In p l -> strings.ContainsRune p c = false.
Proof.
  induction l as [|x l IH]; intros bs H p Hp; [contradiction|].
  simpl in H. destruct (String.length x =? 0)%nat; [discriminate|].
  destruct (semver.containsOnly x semver.alphanum) eqn:Ea; [|discriminate].
  simpl in H. destruct (semver.parseBuild l) as [bs'|e] eqn:El; [|discriminate].
  destruct Hp as [<-|Hp]; [|exact (IH _ eq_refl _ Hp)].
  exact (containsOnly_absent x _ Ea c_alphanum).
Qed.

Hypothesis c_dot : c <> "."%char.
Hypothesis c_plus : c <> "+"%char.

(** A string that parses holds digits, letters, hyphens, dots and plus signs
    only. *)
Lemma Parse_absent (s : string) (v : semver.Version) :
  semver.Parse s = Ok v -> strings.ContainsRune s c = false.
Proof.
  unfold semver.Parse.
  destruct (String.length s =? 0)%nat; [discriminate|].
  destruct (strings.SplitN s "." 3) as [|p0 [|p1 [|p2 [|? ?]]]] eqn:ES; try discriminate.
  apply SplitN_3 in ES.
  destruct (semver.parseNumber "major" "Major" p0) as [major|e] eqn:E0; [|discriminate].
  destruct (semver.parseNumber "minor" "Minor" p1) as [minor|e] eqn:E1; [|discriminate].
  apply parseNumber_absent in E0, E1.
  assert (Dot : Ascii.eqb "." c = false) by (apply Ascii.eqb_neq; congruence).
  assert (Plus : Ascii.eqb "+" c = false) by (apply Ascii.eqb_neq; congruence).
  assert (Hyph : Ascii.eqb "-" c = false).
  { revert c_alphanum. unfold semver.alphanum. cbn [strings.ContainsRune]. intros H.
    repeat (apply orb_false_iff in H as [?A H]). assumption. }
  intros H.
  assert (P2 : strings.ContainsRune p2 c = false).
  { clear ES E0 E1.
    assert (Tail : forall patchStr build,
      (let preIndex := strings.IndexRune patchStr "-" in
       let '(prerelease, patchStr0) :=
         if negb (preIndex =? -1)%Z
         then (strings.Split (strings.slice_from patchStr (Z.to_nat (preIndex + 1))) ".",
               strings.slice_to patchStr (Z.to_nat preIndex))
         else ([], patchStr) in
       match semver.parseNumber "patch" "Patch" patchStr0 with
       | Err e => Err e
       | Ok patch =>
           match semver.parsePre prerelease with
           | Err e => Err e
           | Ok pre =>
               match semver.parseBuild build with
               | Err e => Err e
               | Ok bld => Ok (semver.mkVersion major minor patch pre bld)
               end
           end
       end) = Ok v ->
      strings.ContainsRune patchStr c = false
      /\ forall p, In p build -> strings.ContainsRune p c = false).
    { intros patchStr build. cbv zeta.
      destruct (Z.eqb_spec (strings.IndexRune patchStr "-") (-1)) as [Ei|Ei]; cbn [negb].
      - destruct (semver.parseNumber "patch" "Patch" patchStr) as [patch|e] eqn:Ep;
          [|discriminate].
        cbn [semver.parsePre].
        destruct (semver.parseBuild build) as [bld|e] eqn:Eb; [|discriminate].
        intros _. split; [exact (parseNumber_absent _ _ _ _ Ep)|].
        exact (parseBuild_absent _ _ Eb).
      - pose proof (IndexRune_ge patchStr "-") as G.
        destruct (semver.parseNumber "patch" "Patch" _) as [patch|e] eqn:Ep;
          [|discriminate].
        destruct (semver.parsePre _) as [pre|e] eqn:Epre; [|discriminate].
        destruct (semver.parseBuild build) as [bld|e] eqn:Eb; [|discriminate].
        intros _. split; [|exact (parseBuild_absent _ _ Eb)].
        rewrite (IndexRune_cut patchStr "-" Ei), ContainsRune_app.
        rewrite (parseNumber_absent _ _ _ _ Ep). cbn [strings.ContainsRune orb].
        rewrite Hyph. cbn [orb].
        replace (Z.to_nat (strings.IndexRune patchStr "-") + 1)%nat
          with (Z.to_nat (strings.IndexRune patchStr "-" + 1)) by lia.
        apply (Split_absent _ "." c_dot). exact (parsePre_absent _ _ Epre). }
    cbv zeta in H.
    destruct (Z.eqb_spec (strings.IndexRune p2 "+") (-1)) as [Ei|Ei]; cbn [negb] in H.
    - exact (proj1 (Tail p2 [] H)).
    - pose proof (IndexRune_ge p2 "+") as G.
      destruct (Tail _ _ H) as [Hp Hb].
      rewrite (IndexRune_cut p2 "+" Ei), ContainsRune_app, Hp.
      cbn [strings.ContainsRune orb]. rewrite Plus. cbn [orb].
      replace (Z.to_nat (strings.IndexRune p2 "+") + 1)%nat
        with (Z.to_nat (strings.IndexRune p2 "+" + 1)) by lia.
      exact (Split_absent _ "." c_dot Hb). }
  rewrite ES, ContainsRune_app, E0. cbn [strings.ContainsRune orb].
  rewrite Dot, ContainsRune_app, E1. cbn [strings.ContainsRune orb].
  now rewrite Dot, P2.
Qed.

End Bytes.

(** ** Underscores *)

Lemma Count_zero_iff (s : string) (c : ascii) :
  strings.Count s c = 0%Z <-> strings.ContainsRune s c = false.
Proof.
  induction s as [|a s IH]; cbn [strings.Count strings.ContainsRune]; [tauto|].
  pose proof (Count_nonneg c s).
  destruct (Ascii.eqb a c); cbn [orb]; [split; [lia|discriminate]|].
  rewrite <- IH. split; lia.
Qed.

Lemma Replace_absent (s : string) (old new : ascii) (n : Z) :
  strings.ContainsRune s old = false -> strings.Replace s old new n = s.
Proof.
  intros H. apply Count_zero_iff in H. unfold strings.Replace. rewrite H.
  destruct (_ || _); reflexivity.
Qed.

Lemma replaceN_absent (s : string) (old new : ascii) (n : nat) :
  strings.ContainsRune s old = false -> strings.replaceN s old new n = s.
Proof.
  revert n. induction s as [|a s IH]; intros n H; simpl in *; [reflexivity|].
  apply orb_false_iff in H as [Ha Hs].
  destruct n; [reflexivity|]. rewrite Ha. now rewrite IH.
Qed.

Lemma replaceN_0 (s : string) (old new : ascii) : strings.replaceN s old new 0 = s.
Proof. destruct s; reflexivity. Qed.

Lemma replaceN_app (a s : string) (old new : ascii) (n : nat) :
  strings.ContainsRune a old = false ->
  strings.replaceN (a ++ s) old new n = a ++ strings.replaceN s old new n.
Proof.
  induction a as [|x a IH]; intros H; simpl in *; [reflexivity|].
  apply orb_false_iff in H as [Hx Ha].
  destruct n as [|n].
  - now rewrite replaceN_0.
  - rewrite Hx. now rewrite IH.
Qed.

(** With old and new apart, [n] replacements remove [n] occurrences. *)
Lemma Count_replaceN (s : string) (old new : ascii) :
  old <> new ->
  forall n, strings.Count (strings.replaceN s old new n) old
            = Z.max 0 (strings.Count s old - Z.of_nat n).
Proof.
  intros Hne. apply not_eq_sym in Hne. apply Ascii.eqb_neq in Hne.
  induction s as [|a s IH]; intros n; [simpl; lia|].
  pose proof (Count_nonneg old s) as G.
  destruct n as [|n]; [rewrite replaceN_0; simpl in *; destruct (Ascii.eqb a old); lia|].
  cbn [strings.replaceN]. destruct (Ascii.eqb a old) eqn:Ea.
  - cbn [strings.Count]. rewrite Hne, IH, Ea. lia.
  - cbn [strings.Count]. rewrite Ea, IH. lia.
Qed.

Lemma Count_Replace (s : string) (old new : ascii) (n : Z) :
  old <> new -> (0 < n)%Z ->
  strings.Count (strings.Replace s old new n) old
  = Z.max 0 (strings.Count s old - n).
Proof.
  intros Hne Hn. unfold strings.Replace.
  pose proof (Count_nonneg old s) as G.
  replace (Ascii.eqb old new) with false by (symmetry; now apply Ascii.eqb_neq).
  replace (n =? 0)%Z with false by (symmetry; apply Z.eqb_neq; lia).
  replace (n <? 0)%Z with false by (symmetry; apply Z.ltb_ge; lia).
  cbn [orb].
  destruct (Z.eqb_spec (strings.Count s old) 0) as [E|E]; [lia|].
  rewrite Count_replaceN by assumption.
  destruct (Z.ltb_spec (strings.Count s old) n); lia.
Qed.

(** X9.  [ParseHomebrewVersion] extends the semantic-version parser: a
    string that [semver.Parse] accepts is accepted with the same version. *)
Theorem ParseHomebrewVersion_extends_Parse (s : string) (v : semver.Version) :
  semver.Parse s = Ok v -> update.ParseHomebrewVersion s = Ok v.
Proof.
  intros P.
  assert (U : strings.ContainsRune s "_" = false)
    by (apply (Parse_absent "_" eq_refl ltac:(discriminate) ltac:(discriminate) s v P)).
  unfold update.ParseHomebrewVersion, update.withRevisionAsTag.
  now rewrite (Replace_absent s _ _ _ U), P.
Qed.

Lemma ParseHomebrewVersion_extends_Parse_witness :
  update.ParseHomebrewVersion "1.2.3-rc.1+build.5" =
  Ok (semver.mkVersion 1 2 3 [semver.mkPR "rc" 0 false; semver.mkPR "" 1 true]
        ["build"; "5"]).
Proof.
  exact (ParseHomebrewVersion_extends_Parse "1.2.3-rc.1+build.5" _ eq_refl).
Defined.

(** X10.  A raw string with more than ten underscores never parses: the
    eleventh underscore reaches the parser, which refuses it. *)
Theorem ParseHomebrewVersion_at_most_ten (raw : string) (v : semver.Version) :
  update.ParseHomebrewVersion raw = Ok v -> (strings.Count raw "_" <= 10)%Z.
Proof.
  unfold update.ParseHomebrewVersion.
  destruct (semver.Parse (update.withRevisionAsTag raw)) as [v'|e] eqn:P; [|discriminate].
  intros _.
  apply (Parse_absent "_" eq_refl ltac:(discriminate) ltac:(discriminate)) in P.
  apply Count_zero_iff in P.
  unfold update.withRevisionAsTag in P.
  rewrite Count_Replace in P by (discriminate || lia). lia.
Qed.

Lemma ParseHomebrewVersion_at_most_ten_witness :
  (strings.Count "1.2.3_4_5" "_" <= 10)%Z.
Proof.
  exact (ParseHomebrewVersion_at_most_ten "1.2.3_4_5" _ eq_refl).
Defined.

(** X11.  The Homebrew revision form: for [a] and [b] without underscores,
    [a_b] parses exactly as the semantic version [a-b], and a failure is
    reported with the raw string [a_b]. *)
Theorem ParseHomebrewVersion_revision (a b : string) :
  strings.ContainsRune a "_" = false ->
  strings.ContainsRune b "_" = false ->
  update.ParseHomebrewVersion (a ++ String "_" b) =
  match semver.Parse (a ++ String "-" b) with
  | Ok v => Ok v
  | Err e =>
      Err (fmt_Errorf "failed to parse current version from %s: %s"
             [arg_string (a ++ String "_" b); arg_error e])
  end.
Proof.
  intros Ha Hb.
  assert (N : update.withRevisionAsTag (a ++ String "_" b) = a ++ String "-" b).
  { unfold update.withRevisionAsTag, strings.Replace.
    change (Ascii.eqb "_" "-" || (10 =? 0)%Z) with false. cbv iota.
    assert (C : strings.Count (a ++ String "_" b) "_" = 1%Z).
    { apply Count_zero_iff in Ha, Hb. revert Ha.
      induction a as [|x a' IH]; simpl; intros Ha.
      - rewrite Hb. reflexivity.
      - pose proof (Count_nonneg "_" a').
        destruct (Ascii.eqb x "_"); [lia|]. apply IH. lia. }
    rewrite C. change (Z.to_nat (if (10 <? 0)%Z || (1 <? 10)%Z then 1 else 10)) with 1%nat.
    change (1 =? 0)%Z with false. cbv iota.
    rewrite replaceN_app by assumption. cbn. now rewrite replaceN_0. }
  unfold update.ParseHomebrewVersion. rewrite N.
  destruct (semver.Parse (a ++ String "-" b)); reflexivity.
Qed.

Lemma ParseHomebrewVersion_revision_witness :
  update.ParseHomebrewVersion "1.2.3_4" =
  Ok (semver.mkVersion 1 2 3 [semver.mkPR "" 4 true] []).
Proof.
  exact (ParseHomebrewVersion_revision "1.2.3" "4" eq_refl eq_refl).
Defined.

(** X12.  The caller's version string is parsed as it is, without the
    rewriting of underscores: [CheckForUpdates] refuses every version string
    that holds an underscore, on every channel, before any discovery. *)
Theorem CheckForUpdates_refuses_underscore
    (w : update.World) (api slug current pm : string) :
  strings.ContainsRune current "_" = true ->
  exists e,
    semver.Parse current = Err e
    /\ update.CheckForUpdates api slug current pm w =
       ((None, Some (errors_Wrap e "Failed to parse current version")), []).
Proof.
  intros U. destruct (semver.Parse current) as [v|e] eqn:P.
  - apply (Parse_absent "_" eq_refl ltac:(discriminate) ltac:(discriminate)) in P.
    congruence.
  - exists e. split; [reflexivity|]. unfold update.CheckForUpdates. now rewrite P.
Qed.

Lemma CheckForUpdates_refuses_underscore_witness :
  update.ParseHomebrewVersion "1.2.3_4" =
    Ok (semver.mkVersion 1 2 3 [semver.mkPR "" 4 true] [])
  /\ exists e,
       semver.Parse "1.2.3_4" = Err e
       /\ update.CheckForUpdates "" "circleci/circleci-cli" "1.2.3_4" "homebrew"
            (brewWorld circleciOutdated) =
          ((None, Some (errors_Wrap e "Failed to parse current version")), []).
Proof.
  split; [reflexivity|].
  exact (CheckForUpdates_refuses_underscore (brewWorld circleciOutdated)
           "" "circleci/circleci-cli" "1.2.3_4" "homebrew" eq_refl).
Defined.

(** ** Advice, comparison and installation *)

(** X13.  [HowToUpdate] has advice exactly for the channels on which
    [CheckForUpdates] runs a discovery: it returns the empty string exactly
    when the channel is none of homebrew, release and source, which is when a
    check with a valid version calls no collaborator. *)
Theorem HowToUpdate_empty_iff
    (w : update.World) (api slug current : string) (v0 : semver.Version)
    (opts : update.Options) :
  semver.Parse current = Ok v0 ->
  (update.HowToUpdate opts = ""
   <-> update.PackageManager opts <> "homebrew"
       /\ update.PackageManager opts <> "release"
       /\ update.PackageManager opts <> "source")
  /\ (update.HowToUpdate opts = ""
      <-> snd (update.CheckForUpdates api slug current (update.PackageManager opts) w) = []).
Proof.
  intros P.
  rewrite (CheckForUpdates_parsed w api slug current (update.PackageManager opts) v0 P).
  cbv zeta. cbn [snd]. unfold update.HowToUpdate.
  destruct (String.eqb_spec (update.PackageManager opts) "homebrew") as [Eh|Eh].
  { rewrite Eh. cbn [String.eqb Ascii.eqb Bool.eqb].
    rewrite checkFromHomebrew_trace.
    split; (split; [discriminate|]).
    - intros (A & _). now contradiction A.
    - destruct (update.LookPath w "brew"); discriminate. }
  destruct (String.eqb_spec (update.PackageManager opts) "release") as [Er|Er].
  { rewrite checkFromSource_result. cbn [update.githubAPI update.slug].
    split; (split; [discriminate|]).
    - intros (_ & A & _). now contradiction A.
    - destruct (update.NewUpdater w api) as [u|e];
        [destruct (update.DetectLatest w u slug) as [[l f] o]|]; discriminate. }
  destruct (String.eqb_spec (update.PackageManager opts) "source") as [Es|Es].
  { rewrite checkFromSource_result. cbn [update.githubAPI update.slug].
    split; (split; [cbn; discriminate|]).
    - intros (_ & _ & A). now contradiction A.
    - destruct (update.NewUpdater w api) as [u|e];
        [destruct (update.DetectLatest w u slug) as [[l f] o]|]; discriminate. }
  cbn [snd]. split; split; auto.
Qed.

Lemma HowToUpdate_empty_iff_witness :
  update.HowToUpdate
    (update.mkOptions semver.zero false None "snap" None "" "circleci/circleci-cli") = ""
  <-> snd (update.CheckForUpdates "" "circleci/circleci-cli" "0.1.0" "snap"
             (brewWorld circleciOutdated)) = [].
Proof.
  exact (proj2 (HowToUpdate_empty_iff (brewWorld circleciOutdated)
                  "" "circleci/circleci-cli" "0.1.0" (semver.mkVersion 0 1 0 [] [])
                  (update.mkOptions semver.zero false None "snap" None ""
                     "circleci/circleci-cli")
                  eq_refl)).
Defined.

Lemma Compare_fields (v o : semver.Version) :
  semver.Major v = semver.Major o -> semver.Minor v = semver.Minor o ->
  semver.Patch v = semver.Patch o -> semver.Pre v = semver.Pre o ->
  semver.Compare v o = 0%Z.
Proof.
  intros A B C D. transitivity (semver.Compare v v); [|apply Compare_refl].
  unfold semver.Compare. now rewrite A, B, C, D.
Qed.

Lemma Compare_zero_numbers (v o : semver.Version) :
  semver.Compare v o = 0%Z ->
  semver.Major v = semver.Major o /\ semver.Minor v = semver.Minor o
  /\ semver.Patch v = semver.Patch o.
Proof.
  unfold semver.Compare, semver.cmpN.
  destruct (N.eqb_spec (semver.Major v) (semver.Major o)); cbn [negb];
    [|destruct (_ <? _)%N; discriminate].
  destruct (N.eqb_spec (semver.Minor v) (semver.Minor o)); cbn [negb];
    [|destruct (_ <? _)%N; discriminate].
  destruct (N.eqb_spec (semver.Patch v) (semver.Patch o)); cbn [negb];
    [|destruct (_ <? _)%N; discriminate].
  auto.
Qed.

(** X14.  With a latest release present, [IsLatestVersion] looks at the
    three numbers and the pre-release identifiers only: it answers true when
    those agree, whatever the build meta data of the two versions, and it
    answers true only if the three numbers agree. *)
Theorem IsLatestVersion_ignores_build (opts : update.Options) (latest : update.Release) :
  update.Latest opts = Some latest ->
  (semver.Major (update.Version latest) = semver.Major (update.Current opts) ->
   semver.Minor (update.Version latest) = semver.Minor (update.Current opts) ->
   semver.Patch (update.Version latest) = semver.Patch (update.Current opts) ->
   semver.Pre (update.Version latest) = semver.Pre (update.Current opts) ->
   update.IsLatestVersion opts = true)
  /\ (update.IsLatestVersion opts = true ->
      semver.Major (update.Version latest) = semver.Major (update.Current opts)
      /\ semver.Minor (update.Version latest) = semver.Minor (update.Current opts)
      /\ semver.Patch (update.Version latest) = semver.Patch (update.Current opts)).
Proof.
  intros L. rewrite (IsLatestVersion_found opts latest L). unfold semver.Equals. split.
  - intros A B C D. apply Z.eqb_eq. now apply Compare_fields.
  - intros H. apply Z.eqb_eq in H. now apply Compare_zero_numbers.
Qed.

Lemma IsLatestVersion_ignores_build_witness :
  update.IsLatestVersion
    (opts_example (semver.mkVersion 1 2 3 [] ["a"]) (semver.mkVersion 1 2 3 [] ["b"]))
  = true.
Proof.
  exact (proj1 (IsLatestVersion_ignores_build
                  (opts_example (semver.mkVersion 1 2 3 [] ["a"])
                     (semver.mkVersion 1 2 3 [] ["b"]))
                  (update.mkRelease (semver.mkVersion 1 2 3 [] ["b"]) None) eq_refl)
           eq_refl eq_refl eq_refl eq_refl).
Defined.



(** ** Printing what was parsed *)

(** One step of the digit loop. *)
Lemma parseLoop_step (s0 : string) (c : ascii) (s : string) (n k m : N) :
  strconv.digit c = Some k ->
  strconv.parseLoop s0 (String c s) n = Ok m ->
  strconv.parseLoop s0 s (n * 10 + k) = Ok m.
Proof.
  intros D. cbn [strconv.parseLoop]. rewrite D. cbv zeta.
  assert (Hk : (k < 10)%N).
  { unfold strconv.digit in D. cbv zeta in D.
    destruct ((48 <=? N_of_ascii c) && (N_of_ascii c <=? 57))%N eqn:E; [|discriminate].
    injection D as <-. apply andb_true_iff in E as [A B].
    apply N.leb_le in A, B. lia. }
  unfold strconv.maxUint64.
  change (18446744073709551615 / 10 + 1)%N with 1844674407370955162%N.
  change (2 ^ 64)%N with 18446744073709551616%N.
  destruct (N.leb_spec 1844674407370955162 n); [discriminate|].
  destruct (N.ltb_spec ((n * 10 + k) mod 18446744073709551616) (n * 10)) as [L|L];
    cbn [orb]; [discriminate|].
  destruct (N.ltb_spec 18446744073709551615 ((n * 10 + k) mod 18446744073709551616));
    [discriminate|].
  assert (S : (n * 10 + k < 18446744073709551616)%N).
  { destruct (N.lt_ge_cases (n * 10 + k) 18446744073709551616) as [|G]; [assumption|].
    exfalso.
    assert (E : ((n * 10 + k) mod 18446744073709551616
                 = n * 10 + k - 18446744073709551616)%N).
    { symmetry. apply N.mod_unique with 1%N; lia. }
    lia. }
  now rewrite N.mod_small by assumption.
Qed.


(** The value of a decimal numeral with one more leading digit. *)
Lemma of_uint_acc_value (d : Decimal.uint) (acc : positive) :
  Npos (Pos.of_uint_acc d acc)
  = (Pos.of_uint d + Npos acc * 10 ^ DecimalPos.Unsigned.usize d)%N.
Proof.
  rewrite DecimalPos.Unsigned.of_uint_acc_rev.
  now rewrite <- DecimalPos.Unsigned.of_uint_alt.
Qed.

(** The loop computes the value of the numeral the string spells. *)
Lemma parseLoop_value (s0 s : string) :
  forall (d : Decimal.uint) (n m : N),
    NilEmpty.uint_of_string s = Some d ->
    strconv.parseLoop s0 s n = Ok m ->
    m = (N.of_uint d + n * 10 ^ DecimalPos.Unsigned.usize d)%N.
Proof.
  induction s as [|c s IH]; intros d n m U L.
  - injection U as <-. injection L as <-. cbn. lia.
  - cbn [NilEmpty.uint_of_string] in U.
    destruct (NilEmpty.uint_of_string s) as [d'|] eqn:U'; [|discriminate].
    assert (Step : forall k, strconv.digit c = Some k ->
              m = (N.of_uint d' + (n * 10 + k) * 10 ^ DecimalPos.Unsigned.usize d')%N).
    { intros k D. exact (IH d' _ m eq_refl (parseLoop_step s0 c s n k m D L)). }
    unfold N.of_uint in *.
    apply uint_of_char_spec in U.
    destruct U as [[-> ->]|[[-> ->]|[[-> ->]|[[-> ->]|[[-> ->]|[[-> ->]|[[-> ->]|[[-> ->]|
                  [[-> ->]|[-> ->]]]]]]]]]];
      cbn [Pos.of_uint DecimalPos.Unsigned.usize];
      rewrite ?of_uint_acc_value, N.pow_succ_r';
      (rewrite (Step 0%N eq_refl) || rewrite (Step 1%N eq_refl)
       || rewrite (Step 2%N eq_refl) || rewrite (Step 3%N eq_refl)
       || rewrite (Step 4%N eq_refl) || rewrite (Step 5%N eq_refl)
       || rewrite (Step 6%N eq_refl) || rewrite (Step 7%N eq_refl)
       || rewrite (Step 8%N eq_refl) || rewrite (Step 9%N eq_refl)); lia.
Qed.

(** A string of digits spells a numeral. *)
Lemma digits_uint (s : string) :
  semver.containsOnly s semver.numbers = true ->
  exists d, NilEmpty.uint_of_string s = Some d.
Proof.
  induction s as [|c s IH]; intros H; [now exists Decimal.Nil|].
  cbn [semver.containsOnly] in H. apply andb_true_iff in H as [Hc Hs].
  destruct (IH Hs) as [d Hd]. cbn [NilEmpty.uint_of_string]. rewrite Hd.
  unfold semver.numbers in Hc. cbn [strings.ContainsRune] in Hc.
  repeat (apply orb_true_iff in Hc as [Hc|Hc];
          [apply Ascii.eqb_eq in Hc; subst c; eexists; reflexivity|]).
  discriminate.
Qed.

(** A number that parses prints as the string it was read from. *)
Lemma parseNumber_FormatUint (what What p : string) (n : N) :
  semver.parseNumber what What p = Ok n -> strconv.FormatUint n = p.
Proof.
  unfold semver.parseNumber.
  destruct (semver.containsOnly p semver.numbers) eqn:Ed; [|discriminate]. cbn [negb].
  destruct (semver.hasLeadingZeroes p) eqn:Ez; [discriminate|].
  intros H. destruct (digits_uint p Ed) as [d Hd].
  unfold strconv.ParseUint in H. destruct p as [|c p]; [discriminate|].
  pose proof (parseLoop_value _ _ d 0 n Hd H) as V. rewrite N.mul_0_l, N.add_0_r in V.
  unfold strconv.FormatUint. rewrite V, DecimalN.Unsigned.to_of.
  replace (Decimal.unorm d) with d; [exact (NilEmpty.sus _ _ Hd)|].
  cbn [NilEmpty.uint_of_string] in Hd.
  destruct (NilEmpty.uint_of_string p) as [d'|] eqn:U'; [|discriminate].
  apply uint_of_char_spec in Hd.
  destruct Hd as [[-> ->]|Hd].
  - (* a leading 0: the string is 0 *)
    destruct p as [|c' p']; [injection U' as <-; reflexivity|].
    cbn in Ez. discriminate.
  - decompose [or and] Hd; subst; reflexivity.
Qed.

Lemma append_empty_r (a : string) : a ++ "" = a.
Proof. induction a as [|x a IH]; simpl; [reflexivity|now rewrite IH]. Qed.

Lemma append_assoc (a b c : string) : (a ++ b) ++ c = a ++ (b ++ c).
Proof. induction a as [|x a IH]; simpl; [reflexivity|now rewrite IH]. Qed.

Lemma Split_cons (s : string) (sep : ascii) :
  exists h t, strings.Split s sep = h :: t.
Proof.
  induction s as [|c s [h [t E]]]; simpl; [now eexists _, _|].
  destruct (Ascii.eqb c sep); [now eexists _, _|].
  rewrite E. now eexists _, _.
Qed.

(** Joining the pieces of a split gives the string back. *)
Lemma Join_Split (s : string) (sep : ascii) :
  strings.Join (strings.Split s sep) (String sep "") = s.
Proof.
  induction s as [|c s IH]; [reflexivity|].
  cbn [strings.Split].
  destruct (Split_cons s sep) as (h & t & E). rewrite E in *.
  destruct (Ascii.eqb_spec c sep) as [->|N].
  - change (strings.Join ("" :: h :: t) (String sep ""))
      with ("" ++ String sep "" ++ strings.Join (h :: t) (String sep "")).
    now rewrite IH.
  - destruct t as [|h' t].
    + cbn [strings.Join] in *. now rewrite IH.
    + change (strings.Join (String c h :: h' :: t) (String sep ""))
        with (String c (h ++ String sep "" ++ strings.Join (h' :: t) (String sep ""))).
      change (strings.Join (h :: h' :: t) (String sep ""))
        with (h ++ String sep "" ++ strings.Join (h' :: t) (String sep "")) in IH.
      now rewrite IH.
Qed.

Lemma NewPRVersion_PRString (x : string) (pr : semver.PRVersion) :
  semver.NewPRVersion x = Ok pr -> semver.PRString pr = x.
Proof.
  unfold semver.NewPRVersion.
  destruct (String.length x =? 0)%nat eqn:El; [discriminate|].
  destruct (semver.containsOnly x semver.numbers) eqn:En.
  - destruct (semver.hasLeadingZeroes x) eqn:Ez; [discriminate|].
    destruct (strconv.ParseUint x) as [num|e] eqn:Ep; [|discriminate].
    intros H. injection H as <-. unfold semver.PRString. cbn.
    apply (parseNumber_FormatUint "" "" x num).
    unfold semver.parseNumber. now rewrite En, Ez.
  - destruct (semver.containsOnly x semver.alphanum); [|discriminate].
    intros H. injection H as <-. reflexivity.
Qed.

Lemma parsePre_PRString (l : list string) :
  forall prs, semver.parsePre l = Ok prs -> map semver.PRString prs = l.
Proof.
  induction l as [|x l IH]; intros prs H; simpl in H; [now injection H as <-|].
  destruct (semver.NewPRVersion x) as [pr|e] eqn:Ex; [|discriminate].
  destruct (semver.parsePre l) as [prs'|e] eqn:El; [|discriminate].
  injection H as <-. cbn. now rewrite (NewPRVersion_PRString x pr Ex), (IH _ eq_refl).
Qed.

Lemma parseBuild_same (l : list string) :
  forall bs, semver.parseBuild l = Ok bs -> bs = l.
Proof.
  induction l as [|x l IH]; intros bs H; simpl in H; [now injection H as <-|].
  destruct (String.length x =? 0)%nat; [discriminate|].
  destruct (semver.containsOnly x semver.alphanum); [|discriminate].
  simpl in H. destruct (semver.parseBuild l) as [bs'|e] eqn:El; [|discriminate].
  injection H as <-. now rewrite (IH _ eq_refl).
Qed.

(** The tail of [Version.String] for the lists read from a cut string. *)
Lemma tag_of_Split (mark : ascii) (rest : string) (l : list string) :
  l = strings.Split rest "." ->
  match l with
  | [] => ""
  | _ => String mark "" ++ strings.Join l "."
  end = String mark rest.
Proof.
  intros ->. destruct (Split_cons rest ".") as (h & t & E).
  pose proof (Join_Split rest ".") as J. rewrite E in *. now rewrite J.
Qed.

(** A version prints as the string it was parsed from. *)
Lemma Parse_String (s : string) (v : semver.Version) :
  semver.Parse s = Ok v -> semver.String v = s.
Proof.
  unfold semver.Parse.
  destruct (String.length s =? 0)%nat; [discriminate|].
  destruct (strings.SplitN s "." 3) as [|p0 [|p1 [|p2 [|? ?]]]] eqn:ES; try discriminate.
  apply SplitN_3 in ES.
  destruct (semver.parseNumber "major" "Major" p0) as [major|e] eqn:E0; [|discriminate].
  destruct (semver.parseNumber "minor" "Minor" p1) as [minor|e] eqn:E1; [|discriminate].
  apply parseNumber_FormatUint in E0, E1.
  cbv zeta.
  set (bi := strings.IndexRune p2 "+").
  set (bp := if negb (bi =? -1)%Z
             then (strings.Split (strings.slice_from p2 (Z.to_nat (bi + 1))) ".",
                   strings.slice_to p2 (Z.to_nat bi))
             else ([], p2)).
  destruct bp as [build patchStr] eqn:Ebp.
  set (pi := strings.IndexRune patchStr "-").
  set (pp := if negb (pi =? -1)%Z
             then (strings.Split (strings.slice_from patchStr (Z.to_nat (pi + 1))) ".",
                   strings.slice_to patchStr (Z.to_nat pi))
             else ([], patchStr)).
  destruct pp as [prerelease patchStr0] eqn:Epp.
  destruct (semver.parseNumber "patch" "Patch" patchStr0) as [patch|e] eqn:E2; [|discriminate].
  destruct (semver.parsePre prerelease) as [pre|e] eqn:Epre; [|discriminate].
  destruct (semver.parseBuild build) as [bld|e] eqn:Ebld; [|discriminate].
  intros H. injection H as <-.
  apply parseNumber_FormatUint in E2.
  apply parsePre_PRString in Epre. apply parseBuild_same in Ebld. subst bld.
  unfold semver.String.
  cbn [semver.Major semver.Minor semver.Patch semver.Pre semver.Build].
  rewrite E0, E1, E2, ES. f_equal. cbn [append]. f_equal. f_equal. f_equal.
  (* the build meta data *)
  assert (B : p2 = patchStr ++ match build with
                               | [] => ""
                               | _ => "+" ++ strings.Join build "."
                               end).
  { subst bp. pose proof (IndexRune_ge p2 "+") as G. fold bi in G.
    destruct (Z.eqb_spec bi (-1)) as [Ei|Ei]; cbn [negb] in Ebp; injection Ebp as <- <-.
    - now rewrite append_empty_r.
    - rewrite (tag_of_Split "+" _ _ eq_refl).
      replace (Z.to_nat (bi + 1)) with (Z.to_nat bi + 1)%nat by lia.
      apply IndexRune_cut. exact Ei. }
  (* the pre-release identifiers *)
  assert (P : patchStr = patchStr0 ++ match pre with
                                      | [] => ""
                                      | _ => "-" ++ strings.Join (map semver.PRString pre) "."
                                      end).
  { subst pp. pose proof (IndexRune_ge patchStr "-") as G. fold pi in G.
    destruct (Z.eqb_spec pi (-1)) as [Ei|Ei]; cbn [negb] in Epp; injection Epp as <- <-.
    - destruct pre; [|discriminate]. now rewrite append_empty_r.
    - destruct pre as [|pr0 pre'].
      + destruct (Split_cons (strings.slice_from patchStr (Z.to_nat (pi + 1))) ".")
          as (h & t & E). rewrite E in Epre. discriminate.
      + cbv iota. rewrite Epre, Join_Split.
        replace (Z.to_nat (pi + 1)) with (Z.to_nat pi + 1)%nat by lia.
        apply IndexRune_cut. exact Ei. }
  rewrite B, P at 1. now rewrite append_assoc.
Qed.

(** X16.  The version [ParseHomebrewVersion] returns prints as the raw string
    with its underscores turned into hyphens; for a raw string without
    underscores it prints as the raw string itself. *)
Theorem ParseHomebrewVersion_prints (raw : string) (v : semver.Version) :
  update.ParseHomebrewVersion raw = Ok v ->
  semver.String v = update.withRevisionAsTag raw
  /\ (strings.ContainsRune raw "_" = false -> semver.String v = raw).
Proof.
  unfold update.ParseHomebrewVersion.
  destruct (semver.Parse (update.withRevisionAsTag raw)) as [v'|e] eqn:P; [|discriminate].
  intros H. injection H as <-. apply Parse_String in P. split; [exact P|].
  intros U. rewrite P. unfold update.withRevisionAsTag. now apply Replace_absent.
Qed.

Lemma ParseHomebrewVersion_prints_witness :
  semver.String (semver.mkVersion 1 2 3 [semver.mkPR "" 4 true] []) = "1.2.3-4".
Proof.
  exact (proj1 (ParseHomebrewVersion_prints "1.2.3_4" _ eq_refl)).
Defined.

(** X17.  Off the homebrew channel the user notice names the running
    version with the very string the caller passed: when a check returns a
    record with a latest release, [ReportVersion] prints the caller's string
    and the latest version. *)
Theorem ReportVersion_echoes_current
    (w : update.World) (api slug current pm : string)
    (check : update.Options) (err : option error) (t : list update.Event)
    (latest : update.Release) :
  pm <> "homebrew" ->
  update.CheckForUpdates api slug current pm w = ((Some check, err), t) ->
  update.Latest check = Some latest ->
  update.ReportVersion check =
  Some (("You are running " ++ current) ++ update.newline
        ++ ("A new release is available ("
            ++ semver.String (update.Version latest) ++ ")")).
Proof.
  intros Hpm H L.
  destruct (semver.Parse current) as [v0|e] eqn:P;
    [|unfold update.CheckForUpdates in H; rewrite P in H; discriminate].
  assert (C : update.Current check = v0).
  { rewrite (CheckForUpdates_parsed w api slug current pm v0 P) in H.
    cbv zeta in H. injection H as <- _ _.
    apply String.eqb_neq in Hpm. rewrite Hpm.
    destruct (String.eqb pm "release");
      [rewrite checkFromSource_result; cbn;
       destruct (update.NewUpdater w api) as [u|e];
       [destruct (update.DetectLatest w u slug) as [[l f] o]|]; reflexivity|].
    destruct (String.eqb pm "source");
      [rewrite checkFromSource_result; cbn;
       destruct (update.NewUpdater w api) as [u|e];
       [destruct (update.DetectLatest w u slug) as [[l f] o]|]; reflexivity|].
    reflexivity. }
  unfold update.ReportVersion. rewrite L, C, (Parse_String current v0 P). reflexivity.
Qed.

Lemma ReportVersion_echoes_current_witness :
  update.ReportVersion
    (update.mkOptions (semver.mkVersion 0 1 0 [] ["dev"]) true
       (Some (update.mkRelease (semver.mkVersion 0 1 3923 [] []) None))
       "release" (Some (update.mkUpdater "")) "" "circleci/circleci-cli") =
  Some (("You are running " ++ "0.1.0+dev") ++ update.newline
        ++ ("A new release is available (" ++ "0.1.3923" ++ ")")).
Proof.
  exact (ReportVersion_echoes_current
           (releaseWorld (update.mkRelease (semver.mkVersion 0 1 3923 [] []) None))
           "" "circleci/circleci-cli" "0.1.0+dev" "release" _ None
           [update.EvNewUpdater ""; update.EvDetectLatest "circleci/circleci-cli"]
           (update.mkRelease (semver.mkVersion 0 1 3923 [] []) None)
           ltac:(discriminate) eq_refl eq_refl).
Defined.
